(** * Portal AI Backstage: the backend of [backend/main.py]

    A shallow embedding of the FastAPI prototype: the place classifier and
    its label, the thread builder, the draft composer and the in-memory
    artifact store with its HTTP handlers.

    Conventions of the embedding:
    - a Python [float] is an IEEE binary64 value, [spec_float] of the
      Standard Library at precision 53 and maximal exponent 1024; the
      comparisons [<] are [SFltb], [abs] is [SFabs];
    - a Python [str] is a [string]; one element of the string stands for one
      character of the [str], so that [note[:80]] keeps the first 80 elements;
    - a dict with a fixed set of keys (a thread, the result of [draft]) is a
      record; a dict with caller-chosen keys (an artifact payload) is a
      [gmap string pyval]; the store's own dict [_items], whose order
      [list()] exposes, is an association list in insertion order;
    - dicts are objects: the store keeps references into a heap of dict
      objects, and [add] writes through the reference it is given;
    - [uuid.uuid4()] and [datetime.utcnow()] are readings of the environment
      and are passed to the operation that takes them. *)

From Stdlib Require Import ZArith QArith Qabs String Ascii List DecimalString Lia.
From Stdlib Require Import Floats.SpecFloat.
From stdpp Require Import gmap strings list.

Local Open Scope Z_scope.

(** ** Python strings *)

Module PyStr.

(** [s[:n]] for a non-negative [n]: the first [min n (len s)] characters. *)
Fixpoint slice_to (n : nat) (s : string) : string :=
  match n, s with
  | O, _ => EmptyString
  | S _, EmptyString => EmptyString
  | S n', String c s' => String c (slice_to n' s')
  end.

(** [c * n]: a character repeated. *)
Fixpoint repeat_char (c : ascii) (n : nat) : string :=
  match n with
  | O => EmptyString
  | S n' => String c (repeat_char c n')
  end.

(** [s.startswith(p)] as a proposition: [s] is [p] followed by something. *)
Definition starts_with (p s : string) : Prop := ∃ rest, s = p +:+ rest.

End PyStr.

(** ** Python floats *)

Module PyFloat.

Definition prec : Z := 53.
Definition emax : Z := 1024.

(** The values a binary64 can hold: canonical mantissa and exponent. *)
Definition is_binary64 (x : spec_float) : bool := valid_binary prec emax x.

Definition is_nan (x : spec_float) : bool :=
  match x with S754_nan => true | _ => false end.

Definition is_finite (x : spec_float) : bool :=
  match x with S754_zero _ | S754_finite _ _ _ => true | _ => false end.

(** [a < b] and [abs(a)]. *)
Definition lt (a b : spec_float) : bool := SFltb a b.
Definition abs (a : spec_float) : spec_float := SFabs a.

(** The value of a finite binary64 counted in units of 2^-1074, the
    smallest positive binary64: an integer. What is not finite counts 0. *)
Definition ulps (x : spec_float) : Z :=
  match x with
  | S754_finite s m e => (if s then Zneg m else Zpos m) * 2 ^ (e + 1074)
  | _ => 0
  end.

(** The value as a rational number. *)
Definition value (x : spec_float) : Q := ulps x # (2 ^ 1074)%positive.

(** An integer or decimal literal that binary64 holds exactly. Python
    compares a float with an int by value, which for these integers is
    the comparison with the float of the same value. *)
Definition of_Z (z : Z) : spec_float := binary_normalize prec emax z 0 false.

(** The literals of the source, in canonical form. *)
Definition lit_36_0 : spec_float := S754_finite false 5066549580791808 (-47).
Definition lit_41_0 : spec_float := S754_finite false 5770237022568448 (-47).
Definition lit_m10_0 : spec_float := S754_finite true 5629499534213120 (-49).
Definition lit_m4_0 : spec_float := S754_finite true 4503599627370496 (-50).
Definition lit_20 : spec_float := S754_finite false 5629499534213120 (-48).
Definition lit_15 : spec_float := S754_finite false 8444249301319680 (-49).

(** *** Fixed-point formatting, [format(x, '.Nf')]

    CPython prints the exact binary value correctly rounded to [N]
    decimals, ties to even; the sign is kept also when the digits are all
    zero; a NaN prints as [nan] and the infinities as [inf] and [-inf]. *)

Definition round_half_even (num den : Z) : Z :=
  let q := num / den in
  let r := num mod den in
  match (2 * r ?= den) with
  | Lt => q
  | Gt => q + 1
  | Eq => if Z.even q then q else q + 1
  end.

Definition decimal (n : Z) : string := NilZero.string_of_uint (N.to_uint (Z.to_N n)).

Definition zero_pad (width : nat) (s : string) : string :=
  PyStr.repeat_char "0" (width - String.length s) +:+ s.

Definition sign_str (s : bool) : string := if s then "-" else "".

(** The digits of a non-negative integer [q] counted in units of
    [10^-nd]. *)
Definition fixed_digits (nd : nat) (q : Z) : string :=
  let unit := 10 ^ Z.of_nat nd in
  match nd with
  | O => decimal q
  | _ => decimal (q / unit) +:+ "." +:+ zero_pad nd (decimal (q mod unit))
  end.

Definition format_f (nd : nat) (x : spec_float) : string :=
  match x with
  | S754_nan => "nan"
  | S754_infinity s => sign_str s +:+ "inf"
  | S754_zero s => sign_str s +:+ fixed_digits nd 0
  | S754_finite s m e =>
      let unit := 10 ^ Z.of_nat nd in
      let q := match e with
               | Zneg p => round_half_even (Zpos m * unit) (2 ^ Zpos p)
               | _ => Zpos m * 2 ^ e * unit
               end in
      sign_str s +:+ fixed_digits nd q
  end.

End PyFloat.

(** ** The place label and the threads *)

Import PyFloat.

(** [synthetic_place_label], lines 47-54. *)
Definition synthetic_place_label (lat lon : spec_float) : string :=
  let coastal := lt (abs lon) lit_20 || lt (abs lat) lit_15 in
  let river_band :=
    (lt lit_36_0 lat && lt lat lit_41_0) && (lt lit_m10_0 lon && lt lon lit_m4_0) in
  if river_band then
    "Riverside bend near (" +:+ format_f 3 lat +:+ ", " +:+ format_f 3 lon +:+ ")"
  else if coastal then
    "Coastal fringe around (" +:+ format_f 3 lat +:+ ", " +:+ format_f 3 lon +:+ ")"
  else
    "Inland ridge near (" +:+ format_f 3 lat +:+ ", " +:+ format_f 3 lon +:+ ")".

(** A thread: the dict literal with the five keys of [build_threads]. *)
Record Thread := mkThread {
  title : string;
  summary : string;
  support_level : string;
  suggested_sources : list string;
  verify_questions : list string
}.

Definition base_questions : list string :=
  [ "Who else keeps records of this place?";
    "What photos or maps could confirm details?";
    "Which community voices are missing here?" ].

(** [build_threads], lines 57-134. [threads.append(x)] is [threads ++ [x]]. *)
Definition build_threads (lat lon : spec_float) (note : string) : list Thread :=
  let threads : list Thread := [] in
  let is_coastal := lt (abs lon) lit_20 || lt (abs lat) lit_15 in
  let river_band :=
    (lt lit_36_0 lat && lt lat lit_41_0) && (lt lit_m10_0 lon && lt lon lit_m4_0) in
  let threads :=
    if river_band then
      let threads := threads ++ [
        {| title := "River trade and tides";
           summary := "Merchant rafts once drifted here; floods rewrote paths and stories.";
           support_level := "supported";
           suggested_sources := ["Port records"; "Oral histories"; "Tide charts"];
           verify_questions := base_questions |} ] in
      threads ++ [
        {| title := "Bridge rumors";
           summary := "Locals speak of a temporary bridge that appeared only at low tide.";
           support_level := "likely";
           suggested_sources := ["Newspaper clippings"; "Municipal minutes"];
           verify_questions := base_questions |} ]
    else if is_coastal then
      let threads := threads ++ [
        {| title := "Salt wind archive";
           summary := "Fisher cooperatives indexed storms with shells strung above doorways.";
           support_level := "likely";
           suggested_sources := ["Family collections"; "Weather logs"];
           verify_questions := base_questions |} ] in
      threads ++ [
        {| title := "Ship graffiti";
           summary := "Hull markings carved by dockworkers doubled as secret navigation rhymes.";
           support_level := "speculative";
           suggested_sources := ["Harbor walls"; "Retired sailors"];
           verify_questions := base_questions |} ]
    else
      let threads := threads ++ [
        {| title := "Dry season crossings";
           summary := "Caravans cut through here when the marshes shrank; stones still mark the line.";
           support_level := "supported";
           suggested_sources := ["Trail maps"; "Satellite imagery"];
           verify_questions := base_questions |} ] in
      threads ++ [
        {| title := "Songs against dust";
           summary := "Field choirs sang call-and-response to time irrigation releases.";
           support_level := "likely";
           suggested_sources := ["Local elders"; "Radio archives"];
           verify_questions := base_questions |} ] in
  threads ++ [
    {| title := "Overlay of legends";
       summary := "A traveler wrote about this spot in a note: '" +:+ PyStr.slice_to 80 note
                  +:+ "...' and added their own myth.";
       support_level := "speculative";
       suggested_sources := ["Personal journals"; "Community forums"];
       verify_questions := base_questions |} ].

(** ** The draft composer *)

Record DraftResult := mkDraftResult {
  draft_text : string;
  draft_output_type : string;
  draft_thread_title : string
}.

(** [draft], lines 176-196; the field [draft_text] is the key ["draft"]. *)
Definition draft (thread_title output_type note : string) : DraftResult :=
  let base := "From " +:+ thread_title +:+ ", your note hints: " +:+ PyStr.slice_to 100 note in
  let text :=
    if String.eqb output_type "micro-story" then
      base +:+ ". A passerby pauses as wind drags the scent of metal and salt. "
           +:+ "Layers of rumor and record fold together in 140 words of compressed time."
    else if String.eqb output_type "postcard" then
      "Caption: " +:+ base
        +:+ ". Source note: drafted by the Portal AI backstage, please verify locally."
    else
      "Score: (1) Map a path with footsteps, pause at every third stride. "
        +:+ "(2) Whisper the place name and your note. "
        +:+ "(3) Offer a gesture toward the nearest landmark." in
  {| draft_text := text; draft_output_type := output_type; draft_thread_title := thread_title |}.

(** ** Values, dict objects and the clock *)

(** What a JSON body can hold. *)
#[warnings="-register-all"]
Inductive pyval :=
| VNone
| VBool (b : bool)
| VInt (z : Z)
| VFloat (x : spec_float)
| VStr (s : string)
| VList (l : list pyval)
| VDict (d : gmap string pyval).

(** A dict object is named by a reference; two names of one object see each
    other's writes. *)
Definition ref : Type := nat.

(** A naive [datetime], as [datetime.utcnow()] returns it. *)
Record datetime := mkDatetime {
  year : Z; month : Z; day : Z;
  hour : Z; minute : Z; second : Z; microsecond : Z
}.

(** [datetime.isoformat()]: [YYYY-MM-DDTHH:MM:SS], followed by [.ffffff]
    when the microseconds are not zero. *)
Definition isoformat (t : datetime) : string :=
  zero_pad 4 (decimal (year t)) +:+ "-" +:+ zero_pad 2 (decimal (month t)) +:+ "-"
    +:+ zero_pad 2 (decimal (day t)) +:+ "T" +:+ zero_pad 2 (decimal (hour t)) +:+ ":"
    +:+ zero_pad 2 (decimal (minute t)) +:+ ":" +:+ zero_pad 2 (decimal (second t))
    +:+ (if microsecond t =? 0 then "" else "." +:+ zero_pad 6 (decimal (microsecond t))).

(** ** A dict that remembers insertion order *)

Module OrderedDict.
Section Dict.
Context {V : Type}.

(** [d[k] = v]: a present key keeps its place and takes the new value, a
    new key goes last. *)
Fixpoint set (k : string) (v : V) (d : list (string * V)) : list (string * V) :=
  match d with
  | [] => [(k, v)]
  | (k', v') :: d' =>
      if String.eqb k' k then (k', v) :: d' else (k', v') :: set k v d'
  end.

(** [d[k]], [None] standing for the [KeyError]. *)
Fixpoint get (k : string) (d : list (string * V)) : option V :=
  match d with
  | [] => None
  | (k', v') :: d' => if String.eqb k' k then Some v' else get k d'
  end.

(** [k in d]. *)
Definition contains (k : string) (d : list (string * V)) : bool :=
  match get k d with Some _ => true | None => false end.

Definition keys (d : list (string * V)) : list string := fst <$> d.
Definition values (d : list (string * V)) : list V := snd <$> d.
End Dict.
End OrderedDict.

(** ** The artifact store *)

(** The state of the process: the dict objects that exist, and the store
    [store = ArtifactStore()] with its attribute [_items]. *)
Record World := mkWorld {
  heap : gmap ref (gmap string pyval);
  _items : list (string * ref)
}.

Inductive exn :=
| KeyError (key : string)
| HTTPException (status_code : Z) (detail : string).

(** Code that reads and writes the state and may raise. *)
Definition M (A : Type) : Type := World → (A + exn) * World.

Definition ret {A} (a : A) : M A := λ w, (inl a, w).
Definition raise {A} (e : exn) : M A := λ w, (inr e, w).
Definition bind {A B} (m : M A) (k : A → M B) : M B :=
  λ w, match m w with
       | (inl a, w') => k a w'
       | (inr e, w') => (inr e, w')
       end.
Definition try_except {A} (m : M A) (handler : exn → M A) : M A :=
  λ w, match m w with
       | (inl a, w') => (inl a, w')
       | (inr e, w') => handler e w'
       end.

Notation "'let*' x ':=' m 'in' k" := (bind m (fun x => k))
  (at level 10, x name, m at level 99, k at level 200).

(** [obj[key] = value] on the dict object behind [obj]. *)
Definition setitem (obj : ref) (key : string) (value : pyval) : M unit :=
  λ w, (inl tt, {| heap := alter (insert key value) obj (heap w); _items := _items w |}).

Definition read_items : M (list (string * ref)) := λ w, (inl (_items w), w).
Definition write_items (d : list (string * ref)) : M unit :=
  λ w, (inl tt, {| heap := heap w; _items := d |}).

(** A dict literal or a parsed JSON body: a new object. *)
Definition new_dict (d : gmap string pyval) : M ref :=
  λ w, let r := fresh (dom (heap w)) in
       (inl r, {| heap := <[r := d]> (heap w); _items := _items w |}).

Module ArtifactStore.

(** [__init__]: [self._items = {}]. *)
Definition init (objects : gmap ref (gmap string pyval)) : World :=
  {| heap := objects; _items := [] |}.

(** [add], lines 28-33. [uuid4] is the string of the identifier drawn,
    [utcnow] the reading of the clock. *)
Definition add (uuid4 : string) (utcnow : datetime) (payload : ref) : M ref :=
  let artifact_id := uuid4 in
  let* _ := setitem payload "id" (VStr artifact_id) in
  let* _ := setitem payload "created_at" (VStr (isoformat utcnow +:+ "Z")) in
  let* items := read_items in
  let* _ := write_items (OrderedDict.set artifact_id payload items) in
  ret payload.

(** [get], lines 38-41. *)
Definition get (artifact_id : string) : M ref :=
  let* items := read_items in
  if negb (OrderedDict.contains artifact_id items) then raise (KeyError artifact_id)
  else match OrderedDict.get artifact_id items with
       | Some item => ret item
       | None => raise (KeyError artifact_id)
       end.

(** [list], lines 35-36. *)
Definition list : M (Datatypes.list ref) :=
  let* items := read_items in
  ret (OrderedDict.values items).

End ArtifactStore.

(** ** The handlers of the store's routes *)

(** [POST /artifact], lines 199-202; the body arrives as a dict of its own. *)
Definition save_artifact (uuid4 : string) (utcnow : datetime) (body : gmap string pyval) : M ref :=
  let* payload := new_dict body in
  let* saved := ArtifactStore.add uuid4 utcnow payload in
  ret saved.

(** [GET /artifacts], lines 205-207: the value under the key ["items"]. *)
Definition list_artifacts : M (list ref) :=
  let* items := ArtifactStore.list in
  ret items.

(** [GET /artifact/{artifact_id}], lines 210-216. *)
Definition get_artifact (artifact_id : string) : M ref :=
  let* item := try_except (ArtifactStore.get artifact_id)
                 (λ e, match e with
                       | KeyError _ => raise (HTTPException 404 "Artifact not found")
                       | _ => raise e
                       end) in
  ret item.

(** ** The store seen from outside *)

(** The state an operation leaves, and what it returns. *)
Definition state_after {A} (m : M A) (w : World) : World := snd (m w).
Definition outcome {A} (m : M A) (w : World) : A + exn := fst (m w).

(** The value of a field of the dict behind a reference. *)
Definition field (w : World) (r : ref) (key : string) : option pyval :=
  heap w !! r ≫= (.!! key).

Definition stored_refs (w : World) : list ref := OrderedDict.values (_items w).

(** The ["id"] fields of the artifacts [list()] returns, in its order. *)
Definition stored_ids (w : World) : list (option pyval) :=
  (λ r, field w r "id") <$> stored_refs w.

(** The operations of the store. *)
Inductive call :=
| CallAdd (uuid4 : string) (utcnow : datetime) (payload : ref)
| CallList
| CallGet (artifact_id : string).

Definition after (c : call) (w : World) : World :=
  match c with
  | CallAdd uuid4 utcnow payload => state_after (ArtifactStore.add uuid4 utcnow payload) w
  | CallList => state_after ArtifactStore.list w
  | CallGet artifact_id => state_after (ArtifactStore.get artifact_id) w
  end.

(** What [add] is given when the store is used as [save_artifact] uses it:
    an identifier not in use, and a dict object the store does not hold. *)
Definition admissible (c : call) (w : World) : Prop :=
  match c with
  | CallAdd uuid4 _ payload =>
      (uuid4 ∉ OrderedDict.keys (_items w))
      ∧ (payload ∉ stored_refs w)
      ∧ is_Some (heap w !! payload)
  | _ => True
  end.

(** The artifacts a call adds to the store. *)
Definition added (c : call) : list ref :=
  match c with
  | CallAdd _ _ payload => [payload]
  | _ => []
  end.

(** A run of calls, first to last, each admissible where it is made. *)
Definition run (cs : list call) (w : World) : World := foldl (λ w c, after c w) w cs.

Fixpoint admissible_run (cs : list call) (w : World) : Prop :=
  match cs with
  | [] => True
  | c :: cs' => admissible c w ∧ admissible_run cs' (after c w)
  end.

(** The states of a process in which every call is admissible. Between two
    calls the rest of the program may create dicts and change those the
    store does not hold. *)
Inductive reachable : World → Prop :=
| reach_init objects : reachable (ArtifactStore.init objects)
| reach_call w c : reachable w → admissible c w → reachable (after c w)
| reach_outside w objects :
    reachable w →
    (∀ r, r ∈ stored_refs w → objects !! r = heap w !! r) →
    reachable {| heap := objects; _items := _items w |}.

(** What holds of the store in every such state: the keys are distinct, and
    the dict kept under a key exists and carries the key as its ["id"]. *)
Definition store_inv (w : World) : Prop :=
  NoDup (OrderedDict.keys (_items w))
  ∧ Forall (λ kr, field w kr.2 "id" = Some (VStr kr.1)) (_items w).

(** ** The place category *)

(** The three tests of lines 48-49 and 59-60 as propositions on the
    coordinates. *)
Definition in_river_band (lat lon : spec_float) : Prop :=
  (lt lit_36_0 lat = true ∧ lt lat lit_41_0 = true)
  ∧ (lt lit_m10_0 lon = true ∧ lt lon lit_m4_0 = true).

Definition near_coast (lat lon : spec_float) : Prop :=
  lt (abs lon) lit_20 = true ∨ lt (abs lat) lit_15 = true.

(** The coordinates as the labels print them. *)
Definition coordinates (lat lon : spec_float) : string :=
  format_f 3 lat +:+ ", " +:+ format_f 3 lon +:+ ")".

Definition riverside_label (lat lon : spec_float) : string :=
  "Riverside bend near (" +:+ coordinates lat lon.
Definition coastal_label (lat lon : spec_float) : string :=
  "Coastal fringe around (" +:+ coordinates lat lon.
Definition inland_label (lat lon : spec_float) : string :=
  "Inland ridge near (" +:+ coordinates lat lon.

(** The titles of the first two threads. *)
Definition leading_titles (threads : list Thread) : list string :=
  take 2 (title <$> threads).

(** The summary of the last thread. *)
Definition overlay_summary (lat lon : spec_float) (note : string) : option string :=
  summary <$> last (build_threads lat lon note).


(** ** The prompts and the analysis *)

(** [build_prompts], lines 137-142. *)
Definition build_prompts (lat lon : spec_float) : list string :=
  [ "What sounds did you hear that others might miss?";
    "How does the light or fog change the story of this place?";
    "What would someone 50km away assume about (" +:+ format_f 2 lat +:+ ", "
      +:+ format_f 2 lon +:+ ") and how could you correct them?" ].

(** An uploaded part of the form. The handler reads its name only; the name
    may be missing. *)
Record UploadFile := mkUploadFile { filename : option string }.

Record Aesthetic := mkAesthetic { mood : string; style_tokens : list string }.

Record Uploads := mkUploads {
  photo_names : list (option string);
  audio_name : option string
}.

Record AnalysisResult := mkAnalysisResult {
  place_label : string;
  threads : list Thread;
  reflection_prompts : list string;
  aesthetic : Aesthetic;
  uploads : Uploads;
  received_at : string;
  timestamp : option string
}.

(** [analyze], lines 145-173. An absent part is [None], and [if f] keeps the
    parts that are there. The handler does not name the store. *)
Definition analyze (utcnow : datetime) (lat lon : spec_float) (timestamp : option string)
    (note : string) (photo1 photo2 audio : option UploadFile) : AnalysisResult :=
  let place_label := synthetic_place_label lat lon in
  let threads := build_threads lat lon note in
  let reflection_prompts := build_prompts lat lon in
  let aesthetic :=
    {| mood := "documentary-poetic"; style_tokens := ["grainy"; "local"; "unhurried"] |} in
  let uploads :=
    {| photo_names := omap (λ f : option UploadFile, filename <$> f) [photo1; photo2];
       audio_name := match audio with Some f => filename f | None => None end |} in
  {| place_label := place_label;
     threads := threads;
     reflection_prompts := reflection_prompts;
     aesthetic := aesthetic;
     uploads := uploads;
     received_at := isoformat utcnow +:+ "Z";
     timestamp := timestamp |}.

(** ** The store behind its routes *)

(** The requests that reach the store. *)
Inductive request :=
| PostArtifact (uuid4 : string) (utcnow : datetime) (body : gmap string pyval)
| GetArtifacts
| GetArtifact (artifact_id : string).

Definition serve (q : request) (w : World) : World :=
  match q with
  | PostArtifact uuid4 utcnow body => state_after (save_artifact uuid4 utcnow body) w
  | GetArtifacts => state_after list_artifacts w
  | GetArtifact artifact_id => state_after (get_artifact artifact_id) w
  end.

Definition serve_all (qs : list request) (w : World) : World :=
  foldl (λ w q, serve q w) w qs.

(** Every identifier drawn is new where it is drawn. *)
Fixpoint fresh_ids (qs : list request) (w : World) : Prop :=
  match qs with
  | [] => True
  | q :: qs' =>
      match q with
      | PostArtifact uuid4 _ _ => uuid4 ∉ OrderedDict.keys (_items w)
      | _ => True
      end
      ∧ fresh_ids qs' (serve q w)
  end.

(** The record [add] leaves behind a payload that held [record]. *)
Definition stamped (uuid4 : string) (utcnow : datetime) (record : gmap string pyval)
    : gmap string pyval :=
  <["created_at" := VStr (isoformat utcnow +:+ "Z")]> (<["id" := VStr uuid4]> record).

(** The records posted by a list of requests, in their order. *)
Definition posted (qs : list request) : list (gmap string pyval) :=
  qs ≫= (λ q, match q with
              | PostArtifact uuid4 utcnow body => [stamped uuid4 utcnow body]
              | _ => []
              end).

(** The dicts [list()] returns, as they are now. *)
Definition stored_records (w : World) : list (option (gmap string pyval)) :=
  (λ r, heap w !! r) <$> stored_refs w.

(** The identifiers drawn by the [POST]s of a list of requests, in their
    order. *)
Definition drawn (qs : list request) : list string :=
  qs ≫= (λ q, match q with
              | PostArtifact uuid4 _ _ => [uuid4]
              | _ => []
              end).

(** ** The category of a place *)

Inductive category := river_band | coastal | inland.

(** The category the two tests give, made in the order of lines 50-54 and
    67-105. *)
Definition classify (lat lon : spec_float) : category :=
  if (lt lit_36_0 lat && lt lat lit_41_0) && (lt lit_m10_0 lon && lt lon lit_m4_0)
  then river_band
  else if lt (abs lon) lit_20 || lt (abs lat) lit_15 then coastal
  else inland.

(** ** The digits of a coordinate *)

Definition is_infinite (x : spec_float) : bool :=
  match x with S754_infinity _ => true | _ => false end.

(** The integer whose digits [format_f nd] prints for the finite value of
    mantissa [m] and exponent [e]: the absolute value counted in units of
    [10^-nd], rounded. *)
Definition printed_units (nd : nat) (m : positive) (e : Z) : Z :=
  let unit := 10 ^ Z.of_nat nd in
  match e with
  | Zneg p => round_half_even (Zpos m * unit) (2 ^ Zpos p)
  | _ => Zpos m * 2 ^ e * unit
  end.

(** ** Sample values *)

(** 38.7 and -9.1 as binary64. *)
Definition f_38_7 : spec_float := S754_finite false 5446540799351194 (-47).
Definition f_m9_1 : spec_float := S754_finite true 5122844576133939 (-49).

(** Two readings of the clock. *)
Definition morning : datetime := mkDatetime 2024 5 17 9 30 0 0.
Definition a_minute_later : datetime := mkDatetime 2024 5 17 9 31 0 250000.

(** * Properties *)

(** ** Checks of the embedding on concrete values *)

Example of_Z_36 : of_Z 36 = lit_36_0. Proof. reflexivity. Qed.
Example of_Z_41 : of_Z 41 = lit_41_0. Proof. reflexivity. Qed.
Example of_Z_m10 : of_Z (-10) = lit_m10_0. Proof. reflexivity. Qed.
Example of_Z_m4 : of_Z (-4) = lit_m4_0. Proof. reflexivity. Qed.
Example of_Z_20 : of_Z 20 = lit_20. Proof. reflexivity. Qed.
Example of_Z_15 : of_Z 15 = lit_15. Proof. reflexivity. Qed.

Example label_lisbon :
  synthetic_place_label f_38_7 f_m9_1 = "Riverside bend near (38.700, -9.100)".
Proof. vm_compute. reflexivity. Qed.

Example label_coastal :
  synthetic_place_label (of_Z 10) (of_Z 5) = "Coastal fringe around (10.000, 5.000)".
Proof. vm_compute. reflexivity. Qed.

Example label_inland :
  synthetic_place_label (of_Z 50) (of_Z 100) = "Inland ridge near (50.000, 100.000)".
Proof. vm_compute. reflexivity. Qed.

(** Ties go to the even digit, and the binary value decides, not the
    decimal literal: 0.0625 prints as 0.062, 0.0005 as 0.001, 14.9995 as
    14.999, -0.0001 as -0.000. *)
Example format_tie : format_f 3 (S754_finite false 4503599627370496 (-56)) = "0.062".
Proof. vm_compute. reflexivity. Qed.
Example format_above : format_f 3 (S754_finite false 4611686018427388 (-63)) = "0.001".
Proof. vm_compute. reflexivity. Qed.
Example format_below : format_f 3 (S754_finite false 8443967826342969 (-49)) = "14.999".
Proof. vm_compute. reflexivity. Qed.
Example format_neg_zero : format_f 3 (S754_finite true 7378697629483821 (-66)) = "-0.000".
Proof. vm_compute. reflexivity. Qed.
Example format_big : format_f 3 (S754_finite false 4768371582031250 21)
                     = "10000000000000000000000.000".
Proof. vm_compute. reflexivity. Qed.
Example format_two : format_f 2 f_38_7 = "38.70".
Proof. vm_compute. reflexivity. Qed.

(** The bounds of the river band are outside it: at the latitude 36.0 the
    place is no longer riverside. An infinite coordinate passes no test. *)
Example label_on_the_bound :
  synthetic_place_label lit_36_0 f_m9_1 = "Coastal fringe around (36.000, -9.100)".
Proof. vm_compute. reflexivity. Qed.

Example label_infinite :
  synthetic_place_label (S754_infinity false) (S754_infinity true)
  = "Inland ridge near (inf, -inf)".
Proof. vm_compute. reflexivity. Qed.

Example threads_lisbon :
  title <$> build_threads f_38_7 f_m9_1 "fog"
  = ["River trade and tides"; "Bridge rumors"; "Overlay of legends"].
Proof. vm_compute. reflexivity. Qed.

Example draft_micro_story :
  draft_text (draft "T" "micro-story" "hello")
  = "From T, your note hints: hello. A passerby pauses as wind drags the scent of metal and salt. Layers of rumor and record fold together in 140 words of compressed time.".
Proof. vm_compute. reflexivity. Qed.

Example draft_postcard :
  draft_text (draft "T" "postcard" "hello")
  = "Caption: From T, your note hints: hello. Source note: drafted by the Portal AI backstage, please verify locally.".
Proof. vm_compute. reflexivity. Qed.

Example draft_anything_else :
  draft_text (draft "T" "anything-else" "hello")
  = "Score: (1) Map a path with footsteps, pause at every third stride. (2) Whisper the place name and your note. (3) Offer a gesture toward the nearest landmark.".
Proof. vm_compute. reflexivity. Qed.

Example get_artifact_unknown :
  get_artifact "nonexistent" (ArtifactStore.init ∅)
  = (inr (HTTPException 404 "Artifact not found"), ArtifactStore.init ∅).
Proof. reflexivity. Qed.

Example isoformat_morning : isoformat morning = "2024-05-17T09:30:00".
Proof. vm_compute. reflexivity. Qed.

(** ** Rounding to the last decimal *)

(** The rounded quotient is a nearest integer to [num / den], and the even
    one of the two when [num / den] is half way between them. *)
Lemma round_half_even_nearest (num den : Z) :
  0 < den →
  let q := round_half_even num den in
  Z.abs (2 * (num - q * den)) ≤ den
  ∧ (Z.abs (2 * (num - q * den)) = den → Z.even q = true).
Proof.
  intros Hden. cbv zeta. unfold round_half_even.
  pose proof (Z.div_mod num den ltac:(lia)) as Hdm.
  pose proof (Z.mod_pos_bound num den Hden) as Hr.
  destruct (Z.compare_spec (2 * (num mod den)) den) as [Heq | Hlt | Hgt].
  - destruct (Z.even (num / den)) eqn:Heven.
    + split; [lia | done].
    + split; [lia|]. intros _. rewrite Z.even_add, Heven. reflexivity.
  - split; lia.
  - split; lia.
Qed.

(** ** The order of binary64 is the order of the values *)

Section FloatOrder.

(** A mantissa of [d] binary digits lies between [2^(d-1)] and [2^d]. *)
Lemma digits2_pos_bounds (m : positive) :
  2 ^ (Zpos (digits2_pos m) - 1) ≤ Zpos m < 2 ^ Zpos (digits2_pos m).
Proof.
  induction m as [m IH | m IH |]; simpl digits2_pos.
  - rewrite Pos2Z.inj_succ.
    replace (Z.succ (Zpos (digits2_pos m)) - 1) with (Z.succ (Zpos (digits2_pos m) - 1)) by lia.
    rewrite !Z.pow_succ_r by lia. lia.
  - rewrite Pos2Z.inj_succ.
    replace (Z.succ (Zpos (digits2_pos m)) - 1) with (Z.succ (Zpos (digits2_pos m) - 1)) by lia.
    rewrite !Z.pow_succ_r by lia. lia.
  - simpl. lia.
Qed.

(** A canonical mantissa has at most 53 digits, and exactly 53 above the
    smallest exponent. *)
Lemma bounded_inv (m : positive) (e : Z) :
  bounded prec emax m e = true →
  -1074 ≤ e ∧ Zpos m < 2 ^ 53 ∧ (-1074 < e → 2 ^ 52 ≤ Zpos m).
Proof.
  unfold bounded, canonical_mantissa, fexp, emin, prec, emax.
  intros [Hc _]%andb_true_iff. apply Z.eqb_eq in Hc.
  pose proof (digits2_pos_bounds m) as [Hlo Hhi].
  assert (Zpos (digits2_pos m) ≤ 53 ∧ -1074 ≤ e ∧ (-1074 < e → Zpos (digits2_pos m) = 53))
    as (Hd & He & Hn) by lia.
  split; [done|]. split.
  - eapply Z.lt_le_trans; [exact Hhi|]. apply Z.pow_le_mono_r; lia.
  - intros Hnorm. rewrite (Hn Hnorm) in Hlo. exact Hlo.
Qed.

(** Of two canonical positive values the one with the smaller exponent is
    the smaller. *)
Lemma scaled_lt_of_exp_lt (m1 m2 : positive) (e1 e2 : Z) :
  bounded prec emax m1 e1 = true → bounded prec emax m2 e2 = true →
  e1 < e2 → Zpos m1 * 2 ^ (e1 + 1074) < Zpos m2 * 2 ^ (e2 + 1074).
Proof.
  intros (He1 & Hm1 & _)%bounded_inv (He2 & _ & Hm2)%bounded_inv Hlt.
  assert (-1074 < e2) as Hn by lia. specialize (Hm2 Hn).
  replace (e2 + 1074) with ((e2 - e1 - 1) + 1 + (e1 + 1074)) by lia.
  rewrite (Z.pow_add_r 2 (e2 - e1 - 1 + 1)), (Z.pow_add_r 2 (e2 - e1 - 1) 1) by lia.
  assert (0 < 2 ^ (e1 + 1074)) by (apply Z.pow_pos_nonneg; lia).
  assert (1 ≤ 2 ^ (e2 - e1 - 1)) by (apply (Z.pow_le_mono_r 2 0); lia).
  change (2 ^ 1) with 2. change (2 ^ 53) with (2 ^ 52 * 2) in Hm1.
  assert (0 < 2 ^ 52) as Hpos by done.
  generalize dependent (2 ^ 52). generalize dependent (2 ^ (e1 + 1074)).
  generalize dependent (2 ^ (e2 - e1 - 1)). intros Q HQ P HP B Hm1 Hm2 HB.
  apply Z.lt_le_trans with (B * 2 * P); [nia|].
  replace (Zpos m2 * (Q * 2 * P)) with (Zpos m2 * Q * (2 * P)) by ring.
  replace (B * 2 * P) with (B * 1 * (2 * P)) by ring.
  apply Z.mul_le_mono_nonneg_r; [lia|]. apply Z.mul_le_mono_nonneg; lia.
Qed.

(** Comparing exponents first and mantissas next compares the values. *)
Lemma compare_canonical (m1 m2 : positive) (e1 e2 : Z) :
  bounded prec emax m1 e1 = true → bounded prec emax m2 e2 = true →
  match e1 ?= e2 with
  | Lt => Lt
  | Gt => Gt
  | Eq => Pos.compare_cont Eq m1 m2
  end = (Zpos m1 * 2 ^ (e1 + 1074) ?= Zpos m2 * 2 ^ (e2 + 1074)).
Proof.
  intros Hb1 Hb2. destruct (Z.compare_spec e1 e2) as [-> | Hlt | Hgt].
  - pose proof Hb2 as (He & _)%bounded_inv.
    assert (0 < 2 ^ (e2 + 1074)) by (apply Z.pow_pos_nonneg; lia).
    change (Pos.compare_cont Eq m1 m2) with (Zpos m1 ?= Zpos m2).
    symmetry. destruct (Z.compare_spec (Zpos m1) (Zpos m2)) as [Heq | Hl | Hg].
    + rewrite Heq. apply Z.compare_refl.
    + apply Z.compare_lt_iff. nia.
    + apply Z.compare_gt_iff. nia.
  - symmetry. apply Z.compare_lt_iff. by apply scaled_lt_of_exp_lt.
  - symmetry. apply Z.compare_gt_iff. by apply scaled_lt_of_exp_lt.
Qed.

(** On finite binary64 values [<] is the order of the values. *)
Lemma lt_ulps (x y : spec_float) :
  is_binary64 x = true → is_binary64 y = true →
  is_finite x = true → is_finite y = true →
  lt x y = true ↔ ulps x < ulps y.
Proof.
  intros Hx Hy Hfx Hfy.
  destruct x as [sx | sx | | sx mx ex], y as [sy | sy | | sy my ey]; try discriminate.
  - simpl. split; [done | lia].
  - unfold lt, SFltb; simpl.
    pose proof Hy as (He & _)%bounded_inv.
    assert (0 < 2 ^ (ey + 1074)) by (apply Z.pow_pos_nonneg; lia).
    destruct sy; split; try done; nia.
  - unfold lt, SFltb; simpl.
    pose proof Hx as (He & _)%bounded_inv.
    assert (0 < 2 ^ (ex + 1074)) by (apply Z.pow_pos_nonneg; lia).
    destruct sx; split; try done; nia.
  - pose proof Hx as (Hex & _)%bounded_inv. pose proof Hy as (Hey & _)%bounded_inv.
    assert (0 < 2 ^ (ex + 1074)) by (apply Z.pow_pos_nonneg; lia).
    assert (0 < 2 ^ (ey + 1074)) by (apply Z.pow_pos_nonneg; lia).
    pose proof (compare_canonical mx my ex ey Hx Hy) as Hcmp.
    unfold lt, SFltb, SFcompare, ulps.
    destruct sx, sy.
    + rewrite <- Z.compare_lt_iff.
      change (Z.neg mx) with (- Zpos mx). change (Z.neg my) with (- Zpos my).
      rewrite !Z.mul_opp_l, Z.compare_opp.
      rewrite (Z.compare_antisym (Zpos mx * 2 ^ (ex + 1074))), <- Hcmp.
      destruct (ex ?= ey); [destruct (Pos.compare_cont Eq mx my)|..]; simpl; split; congruence.
    + split; [intros _; nia | done].
    + split; [done | intros; nia].
    + rewrite <- Z.compare_lt_iff, <- Hcmp.
      destruct (ex ?= ey); [destruct (Pos.compare_cont Eq mx my)|..]; split; congruence.
Qed.

Lemma lt_value (x y : spec_float) :
  is_binary64 x = true → is_binary64 y = true →
  is_finite x = true → is_finite y = true →
  lt x y = true ↔ (value x < value y)%Q.
Proof.
  intros Hx Hy Hfx Hfy. rewrite lt_ulps by done.
  unfold value, Qlt. cbn [Qnum Qden].
  apply Z.mul_lt_mono_pos_r. done.
Qed.

(** [abs] is the absolute value; the literals have the values written. *)
Lemma value_abs (x : spec_float) : value (abs x) = Qabs (value x).
Proof.
  destruct x as [s | s | | s m e]; try reflexivity.
  unfold value, Qabs, ulps, abs, SFabs. f_equal.
  assert (0 ≤ 2 ^ (e + 1074)) as Hpow by (apply Z.pow_nonneg; lia).
  destruct s; [rewrite Z.abs_neq by nia | rewrite Z.abs_eq by nia]; lia.
Qed.

Lemma literal_values :
  (value lit_36_0 == 36 ∧ value lit_41_0 == 41 ∧ value lit_m10_0 == -10
   ∧ value lit_m4_0 == -4 ∧ value lit_20 == 20 ∧ value lit_15 == 15)%Q.
Proof. repeat split; vm_compute; reflexivity. Qed.

(** A value between two finite ones is finite. *)
Lemma between_finite (a x b : spec_float) :
  is_finite a = true → is_finite b = true →
  lt a x = true → lt x b = true → is_finite x = true.
Proof. destruct a, b; try done; destruct x as [| [] | |]; done. Qed.

Lemma abs_below_finite (x b : spec_float) :
  is_finite b = true → lt (abs x) b = true → is_finite x = true.
Proof. destruct b; try done; destruct x as [| [] | |]; done. Qed.

Lemma is_binary64_abs (x : spec_float) : is_binary64 (abs x) = is_binary64 x.
Proof. by destruct x. Qed.

Lemma is_finite_abs (x : spec_float) : is_finite (abs x) = is_finite x.
Proof. by destruct x. Qed.

(** The two tests read on the values of the coordinates. *)
Lemma in_river_band_value (lat lon : spec_float) :
  is_binary64 lat = true → is_binary64 lon = true →
  in_river_band lat lon
  ↔ is_finite lat = true ∧ is_finite lon = true
    ∧ (36 < value lat ∧ value lat < 41)%Q ∧ (-10 < value lon ∧ value lon < -4)%Q.
Proof.
  intros Hlat Hlon. unfold in_river_band.
  destruct literal_values as (H36 & H41 & Hm10 & Hm4 & _).
  rewrite <- H36, <- H41, <- Hm10, <- Hm4. split.
  - intros [[H1 H2] [H3 H4]].
    assert (is_finite lat = true) as Hflat by by eapply between_finite; [| |exact H1|exact H2].
    assert (is_finite lon = true) as Hflon by by eapply between_finite; [| |exact H3|exact H4].
    rewrite <- !lt_value by done. done.
  - intros (Hflat & Hflon & Hl & Ho). rewrite <- !lt_value in Hl, Ho by done. done.
Qed.

Lemma near_coast_value (lat lon : spec_float) :
  is_binary64 lat = true → is_binary64 lon = true →
  near_coast lat lon
  ↔ (is_finite lon = true ∧ (Qabs (value lon) < 20)%Q)
    ∨ (is_finite lat = true ∧ (Qabs (value lat) < 15)%Q).
Proof.
  intros Hlat Hlon. unfold near_coast.
  destruct literal_values as (_ & _ & _ & _ & H20 & H15).
  rewrite <- H20, <- H15, <- !value_abs.
  split; (intros [H | H]; [left | right]).
  - pose proof (abs_below_finite lon lit_20 eq_refl H) as Hf. split; [done|].
    apply lt_value; rewrite ?is_binary64_abs, ?is_finite_abs; done.
  - pose proof (abs_below_finite lat lit_15 eq_refl H) as Hf. split; [done|].
    apply lt_value; rewrite ?is_binary64_abs, ?is_finite_abs; done.
  - destruct H as [Hf H]. apply lt_value; rewrite ?is_binary64_abs, ?is_finite_abs; done.
  - destruct H as [Hf H]. apply lt_value; rewrite ?is_binary64_abs, ?is_finite_abs; done.
Qed.

(** Every place in the river band passes the coastal test on its longitude. *)
Lemma river_band_near_coast (lat lon : spec_float) :
  in_river_band lat lon → near_coast lat lon.
Proof.
  intros [_ [Hlo Hhi]]. left.
  destruct lon as [s | [] | | [] m e]; try discriminate Hlo; try discriminate Hhi.
  unfold lt, SFltb, SFcompare, lit_m10_0, lit_20, abs, SFabs in *.
  destruct (Z.compare_spec (-49) e) as [Heq | Hlt | Hgt]; try discriminate Hlo.
  - subst e. reflexivity.
  - destruct (Z.compare_spec e (-48)) as [-> | ? | ?]; [lia | reflexivity | lia].
Qed.

End FloatOrder.

(** ** Slices *)

Section SliceFacts.

Lemma slice_to_length (n : nat) (s : string) :
  String.length (PyStr.slice_to n s) = Nat.min n (String.length s).
Proof.
  revert s. induction n as [|n IH]; intros [|c s]; simpl; auto.
Qed.

(** The slice is the beginning of the string. *)
Lemma slice_to_prefix (n : nat) (s : string) : PyStr.starts_with (PyStr.slice_to n s) s.
Proof.
  revert s. induction n as [|n IH]; intros s.
  - exists s. reflexivity.
  - destruct s as [|c s]; [exists EmptyString; reflexivity|].
    destruct (IH s) as [rest Hrest]. exists rest.
    change (String c s = String c (PyStr.slice_to n s +:+ rest)). by f_equal.
Qed.

Lemma slice_to_all (n : nat) (s : string) :
  (String.length s ≤ n)%nat → PyStr.slice_to n s = s.
Proof.
  revert s. induction n as [|n IH]; intros [|c s] Hlen; simpl in *; try reflexivity; try lia.
  f_equal. apply IH. lia.
Qed.

Lemma slice_to_idem (n : nat) (s : string) :
  PyStr.slice_to n (PyStr.slice_to n s) = PyStr.slice_to n s.
Proof.
  apply slice_to_all. rewrite slice_to_length. lia.
Qed.

Lemma append_assoc (s t u : string) : (s +:+ t) +:+ u = s +:+ (t +:+ u).
Proof.
  induction s as [|c s IH]; [reflexivity|].
  change (String c ((s +:+ t) +:+ u) = String c (s +:+ (t +:+ u))). by f_equal.
Qed.

End SliceFacts.

(** ** The two tests decide *)

Section Classification.

Variables lat lon : spec_float.

Lemma river_band_reflect :
  ((lt lit_36_0 lat && lt lat lit_41_0) && (lt lit_m10_0 lon && lt lon lit_m4_0)) = true
  ↔ in_river_band lat lon.
Proof.
  unfold in_river_band. rewrite !andb_true_iff. reflexivity.
Qed.

Lemma near_coast_reflect :
  (lt (abs lon) lit_20 || lt (abs lat) lit_15) = true ↔ near_coast lat lon.
Proof.
  unfold near_coast. rewrite orb_true_iff. reflexivity.
Qed.

(** The label by cases, as the two tests decide. *)
Lemma label_cases :
  (in_river_band lat lon ∧ synthetic_place_label lat lon = riverside_label lat lon)
  ∨ (¬ in_river_band lat lon ∧ near_coast lat lon
     ∧ synthetic_place_label lat lon = coastal_label lat lon)
  ∨ (¬ in_river_band lat lon ∧ ¬ near_coast lat lon
     ∧ synthetic_place_label lat lon = inland_label lat lon).
Proof.
  unfold synthetic_place_label.
  destruct ((lt lit_36_0 lat && lt lat lit_41_0) && (lt lit_m10_0 lon && lt lon lit_m4_0))
    eqn:Hriver.
  - left. split; [by apply river_band_reflect | reflexivity].
  - assert (¬ in_river_band lat lon) as Hnot
      by (rewrite <- river_band_reflect; congruence).
    destruct (lt (abs lon) lit_20 || lt (abs lat) lit_15) eqn:Hcoast.
    + right; left. repeat split; [done | by apply near_coast_reflect].
    + right; right. repeat split; [done |].
      rewrite <- near_coast_reflect. congruence.
Qed.

(** The threads by cases, on the same two tests. *)
Lemma threads_cases (note : string) :
  (in_river_band lat lon
   ∧ leading_titles (build_threads lat lon note) = ["River trade and tides"; "Bridge rumors"])
  ∨ (¬ in_river_band lat lon ∧ near_coast lat lon
     ∧ leading_titles (build_threads lat lon note) = ["Salt wind archive"; "Ship graffiti"])
  ∨ (¬ in_river_band lat lon ∧ ¬ near_coast lat lon
     ∧ leading_titles (build_threads lat lon note)
       = ["Dry season crossings"; "Songs against dust"]).
Proof.
  unfold build_threads.
  destruct ((lt lit_36_0 lat && lt lat lit_41_0) && (lt lit_m10_0 lon && lt lon lit_m4_0))
    eqn:Hriver.
  - left. split; [by apply river_band_reflect | reflexivity].
  - assert (¬ in_river_band lat lon) as Hnot
      by (rewrite <- river_band_reflect; congruence).
    destruct (lt (abs lon) lit_20 || lt (abs lat) lit_15) eqn:Hcoast.
    + right; left. repeat split; [done | by apply near_coast_reflect].
    + right; right. repeat split; [done |].
      rewrite <- near_coast_reflect. congruence.
Qed.

End Classification.

(** The three labels differ from their first character on. *)
Lemma labels_differ (lat lon lat' lon' : spec_float) :
  riverside_label lat lon ≠ coastal_label lat' lon'
  ∧ riverside_label lat lon ≠ inland_label lat' lon'
  ∧ coastal_label lat lon ≠ inland_label lat' lon'.
Proof. repeat split; discriminate. Qed.

(** ** The label and the threads follow the category *)

(** C1. For every latitude and longitude: inside the river band
    (36.0 < lat < 41.0 and -10.0 < lon < -4.0) the label is "Riverside bend
    near (" followed by the two coordinates printed with three decimals;
    outside it, when abs(lon) < 20 or abs(lat) < 15, the label is the
    "Coastal fringe around (" one; otherwise it is the "Inland ridge near ("
    one. Every place of the river band passes the coastal test too, and its
    label is the riverside one all the same. On binary64 coordinates the
    tests are the inequalities between the values. *)
Theorem place_label_by_category (lat lon : spec_float) :
  (in_river_band lat lon →
     synthetic_place_label lat lon
     = "Riverside bend near (" +:+ format_f 3 lat +:+ ", " +:+ format_f 3 lon +:+ ")")
  ∧ (¬ in_river_band lat lon → near_coast lat lon →
     synthetic_place_label lat lon
     = "Coastal fringe around (" +:+ format_f 3 lat +:+ ", " +:+ format_f 3 lon +:+ ")")
  ∧ (¬ in_river_band lat lon → ¬ near_coast lat lon →
     synthetic_place_label lat lon
     = "Inland ridge near (" +:+ format_f 3 lat +:+ ", " +:+ format_f 3 lon +:+ ")")
  ∧ (in_river_band lat lon →
     near_coast lat lon
     ∧ PyStr.starts_with "Riverside bend near (" (synthetic_place_label lat lon))
  ∧ (is_binary64 lat = true → is_binary64 lon = true →
     (in_river_band lat lon
      ↔ is_finite lat = true ∧ is_finite lon = true
        ∧ (36 < value lat ∧ value lat < 41)%Q ∧ (-10 < value lon ∧ value lon < -4)%Q)
     ∧ (near_coast lat lon
        ↔ (is_finite lon = true ∧ (Qabs (value lon) < 20)%Q)
          ∨ (is_finite lat = true ∧ (Qabs (value lat) < 15)%Q))).
Proof.
  split_and!.
  - intros Hr. by destruct (label_cases lat lon) as [[_ Hl] | [(? & _) | (? & _)]].
  - intros Hr Hc. by destruct (label_cases lat lon) as [[? _] | [(_ & _ & Hl) | (_ & ? & _)]].
  - intros Hr Hc. by destruct (label_cases lat lon) as [[? _] | [(_ & ? & _) | (_ & _ & Hl)]].
  - intros Hr. split; [by eapply river_band_near_coast|].
    destruct (label_cases lat lon) as [[_ Hl] | [(? & _) | (? & _)]]; try done.
    rewrite Hl. by exists (coordinates lat lon).
  - intros Hlat Hlon. split; [by apply in_river_band_value | by apply near_coast_value].
Qed.

(** C2. The label and the threads are chosen by the same category: the
    label is the riverside one exactly when the threads begin with "River
    trade and tides" and "Bridge rumors", the coastal one exactly when they
    begin with "Salt wind archive" and "Ship graffiti", the inland one
    exactly when they begin with "Dry season crossings" and "Songs against
    dust", whatever the note. *)
Theorem label_agrees_with_threads (lat lon : spec_float) (note : string) :
  (synthetic_place_label lat lon = riverside_label lat lon
   ↔ leading_titles (build_threads lat lon note) = ["River trade and tides"; "Bridge rumors"])
  ∧ (synthetic_place_label lat lon = coastal_label lat lon
     ↔ leading_titles (build_threads lat lon note) = ["Salt wind archive"; "Ship graffiti"])
  ∧ (synthetic_place_label lat lon = inland_label lat lon
     ↔ leading_titles (build_threads lat lon note)
       = ["Dry season crossings"; "Songs against dust"]).
Proof.
  destruct (label_cases lat lon) as [[Hr Hl] | [(Hr & Hc & Hl) | (Hr & Hc & Hl)]];
    destruct (threads_cases lat lon note)
      as [[Hr' Ht] | [(Hr' & Hc' & Ht) | (Hr' & Hc' & Ht)]];
    try contradiction; rewrite Hl, Ht;
    repeat split; intros H; try reflexivity; discriminate H.
Qed.

(** C3. For every latitude, longitude and note there are exactly three
    threads. The first two are the pair of the category: "River trade and
    tides" (supported) and "Bridge rumors" (likely) in the river band,
    "Salt wind archive" (likely) and "Ship graffiti" (speculative) near the
    coast, "Dry season crossings" (supported) and "Songs against dust"
    (likely) inland. The third is "Overlay of legends". All three carry the
    same list of three questions. *)
Theorem build_threads_shape (lat lon : spec_float) (note : string) :
  ∃ t1 t2 t3 : Thread,
    build_threads lat lon note = [t1; t2; t3]
    ∧ (in_river_band lat lon →
         (title t1, support_level t1) = ("River trade and tides", "supported")
         ∧ (title t2, support_level t2) = ("Bridge rumors", "likely"))
    ∧ (¬ in_river_band lat lon → near_coast lat lon →
         (title t1, support_level t1) = ("Salt wind archive", "likely")
         ∧ (title t2, support_level t2) = ("Ship graffiti", "speculative"))
    ∧ (¬ in_river_band lat lon → ¬ near_coast lat lon →
         (title t1, support_level t1) = ("Dry season crossings", "supported")
         ∧ (title t2, support_level t2) = ("Songs against dust", "likely"))
    ∧ title t3 = "Overlay of legends"
    ∧ ∀ t, t ∈ [t1; t2; t3] →
        verify_questions t = [ "Who else keeps records of this place?";
                               "What photos or maps could confirm details?";
                               "Which community voices are missing here?" ].
Proof.
  unfold build_threads.
  destruct ((lt lit_36_0 lat && lt lat lit_41_0) && (lt lit_m10_0 lon && lt lon lit_m4_0))
    eqn:Hriver; [|destruct (lt (abs lon) lit_20 || lt (abs lat) lit_15) eqn:Hcoast];
    (eexists _, _, _; split; [reflexivity|]);
    rewrite <- ?river_band_reflect, <- ?near_coast_reflect, ?Hriver, ?Hcoast;
    repeat split; try congruence; try (intros; exfalso; congruence).
  all: intros t Ht; repeat (apply elem_of_cons in Ht as [-> | Ht]; [reflexivity|]);
    by apply elem_of_nil in Ht.
Qed.

(** ** The note inside the last thread *)

Lemma overlay_summary_eq (lat lon : spec_float) (note : string) :
  overlay_summary lat lon note
  = Some ("A traveler wrote about this spot in a note: '" +:+ PyStr.slice_to 80 note
          +:+ "...' and added their own myth.").
Proof.
  unfold overlay_summary, build_threads.
  destruct ((lt lit_36_0 lat && lt lat lit_41_0) && (lt lit_m10_0 lon && lt lon lit_m4_0));
    [|destruct (lt (abs lon) lit_20 || lt (abs lat) lit_15)]; reflexivity.
Qed.

(** C4. For every note the summary of the last thread, "Overlay of
    legends", is a fixed sentence around an excerpt of the note, and the
    excerpt is the first min(len(note), 80) characters of the note,
    unchanged; a note shorter than 80 characters appears whole. *)
Theorem overlay_embeds_note_prefix (lat lon : spec_float) (note : string) :
  ∃ (overlay : Thread) (excerpt : string),
    last (build_threads lat lon note) = Some overlay
    ∧ title overlay = "Overlay of legends"
    ∧ summary overlay = "A traveler wrote about this spot in a note: '" +:+ excerpt
                        +:+ "...' and added their own myth."
    ∧ String.length excerpt = Nat.min (String.length note) 80
    ∧ PyStr.starts_with excerpt note
    ∧ ((String.length note < 80)%nat → excerpt = note).
Proof.
  unfold build_threads.
  destruct ((lt lit_36_0 lat && lt lat lit_41_0) && (lt lit_m10_0 lon && lt lon lit_m4_0));
    [|destruct (lt (abs lon) lit_20 || lt (abs lat) lit_15)];
    (eexists _, (PyStr.slice_to 80 note); split; [reflexivity|]);
    (repeat split;
      [ rewrite slice_to_length; lia
      | apply slice_to_prefix
      | intros; apply slice_to_all; lia ]).
Qed.

(** C9. For every note the summary of "Overlay of legends" is the sentence
    "A traveler wrote about this spot in a note: '", the first 80
    characters of the note, "...' and added their own myth.". The three
    dots follow the note also when it is shorter than 80 characters and is
    there in full, so the summary of a note and that of its first 80
    characters are the same. *)
Theorem overlay_summary_template (lat lon : spec_float) (note : string) :
  overlay_summary lat lon note
  = Some ("A traveler wrote about this spot in a note: '" +:+ PyStr.slice_to 80 note
          +:+ "...' and added their own myth.")
  ∧ ((String.length note < 80)%nat →
     overlay_summary lat lon note
     = Some ("A traveler wrote about this spot in a note: '" +:+ note
             +:+ "...' and added their own myth."))
  ∧ overlay_summary lat lon note = overlay_summary lat lon (PyStr.slice_to 80 note).
Proof.
  rewrite !overlay_summary_eq. repeat split.
  - intros Hshort. rewrite slice_to_all by lia. reflexivity.
  - by rewrite slice_to_idem.
Qed.

(** ** The draft composer *)

(** C5. For every title, output type and note: the type "micro-story"
    gives "From <title>, your note hints: <first 100 characters of the
    note>" followed by the fixed continuation; the type "postcard" gives a
    text that begins "Caption: From <title>, your note hints: "; every other
    type, compared as written and the empty one included, gives the fixed
    three-step score, whatever the title and the note. *)
Theorem draft_by_output_type (thread_title output_type note : string) :
  (output_type = "micro-story" →
     draft_text (draft thread_title output_type note)
     = "From " +:+ thread_title +:+ ", your note hints: " +:+ PyStr.slice_to 100 note
       +:+ ". A passerby pauses as wind drags the scent of metal and salt. "
       +:+ "Layers of rumor and record fold together in 140 words of compressed time.")
  ∧ (output_type = "postcard" →
     PyStr.starts_with ("Caption: From " +:+ thread_title +:+ ", your note hints: ")
                       (draft_text (draft thread_title output_type note)))
  ∧ (output_type ≠ "micro-story" → output_type ≠ "postcard" →
     ∀ thread_title' note',
       draft_text (draft thread_title' output_type note')
       = "Score: (1) Map a path with footsteps, pause at every third stride. "
         +:+ "(2) Whisper the place name and your note. "
         +:+ "(3) Offer a gesture toward the nearest landmark.")
  ∧ draft_text (draft thread_title "" note) = draft_text (draft "" "Postcard" "").
Proof.
  repeat split.
  - intros ->. unfold draft. simpl. by rewrite !append_assoc.
  - intros ->. unfold draft. simpl.
    exists (PyStr.slice_to 100 note
            +:+ ". Source note: drafted by the Portal AI backstage, please verify locally.").
    by rewrite !append_assoc.
  - intros Hms Hpc thread_title' note'. unfold draft. simpl.
    apply String.eqb_neq in Hms, Hpc. by rewrite Hms, Hpc.
Qed.

(** ** Coordinates that are not numbers *)

Section NaN.

(** No comparison with a NaN holds, on either side. *)
Lemma lt_nan_l (x : spec_float) : lt S754_nan x = false.
Proof. reflexivity. Qed.

Lemma lt_nan_r (x : spec_float) : lt x S754_nan = false.
Proof. by destruct x. Qed.

Lemma is_nan_eq (x : spec_float) : is_nan x = true → x = S754_nan.
Proof. by destruct x. Qed.

Lemma nan_not_in_river_band (lat lon : spec_float) :
  is_nan lat = true ∨ is_nan lon = true → ¬ in_river_band lat lon.
Proof.
  intros [H | H]; apply is_nan_eq in H; subst; intros [[H1 H2] [H3 H4]].
  - by rewrite lt_nan_r in H1.
  - by rewrite lt_nan_r in H3.
Qed.

End NaN.

(** A latitude that is a NaN with the longitude 5.0: the test on the
    longitude holds, and the place is coastal, not inland. *)
Lemma nan_latitude_is_coastal :
  is_nan S754_nan = true
  ∧ lt (abs (of_Z 5)) lit_20 = true
  ∧ synthetic_place_label S754_nan (of_Z 5) = "Coastal fringe around (nan, 5.000)"
  ∧ synthetic_place_label S754_nan (of_Z 5) ≠ inland_label S754_nan (of_Z 5)
  ∧ (title <$> build_threads S754_nan (of_Z 5) "")
    = ["Salt wind archive"; "Ship graffiti"; "Overlay of legends"].
Proof. vm_compute. repeat split. discriminate. Qed.

(** C10, as the code has it. When the latitude or the longitude is a NaN
    the river band test fails and the comparison on the NaN coordinate
    fails, so the place is coastal exactly when the other coordinate passes
    its own coastal test (abs(lon) < 20 for a NaN latitude, abs(lat) < 15 for
    a NaN longitude), with the coastal label and threads, and inland
    otherwise, with the inland label and threads; it is inland when both
    are NaN. *)
Theorem nan_classification (lat lon : spec_float) :
  is_nan lat = true ∨ is_nan lon = true →
  ¬ in_river_band lat lon
  ∧ (is_nan lat = true → lt (abs lat) lit_15 = false)
  ∧ (is_nan lon = true → lt (abs lon) lit_20 = false)
  ∧ (near_coast lat lon →
       synthetic_place_label lat lon = coastal_label lat lon
       ∧ ∀ note, leading_titles (build_threads lat lon note)
                 = ["Salt wind archive"; "Ship graffiti"])
  ∧ (¬ near_coast lat lon →
       synthetic_place_label lat lon = inland_label lat lon
       ∧ ∀ note, leading_titles (build_threads lat lon note)
                 = ["Dry season crossings"; "Songs against dust"])
  ∧ (is_nan lat = true → is_nan lon = true →
       synthetic_place_label lat lon = "Inland ridge near (nan, nan)"
       ∧ ∀ note, leading_titles (build_threads lat lon note)
                 = ["Dry season crossings"; "Songs against dust"]).
Proof.
  intros Hnan. pose proof (nan_not_in_river_band lat lon Hnan) as Hriver.
  split; [exact Hriver|].
  split; [by intros ->%is_nan_eq|].
  split; [by intros ->%is_nan_eq|].
  assert (∀ note, ¬ near_coast lat lon →
            leading_titles (build_threads lat lon note)
            = ["Dry season crossings"; "Songs against dust"]) as Hinland.
  { intros note Hc.
    by destruct (threads_cases lat lon note) as [[? _] | [(_ & ? & _) | (_ & _ & Ht)]]. }
  repeat split.
  - by destruct (label_cases lat lon) as [[? _] | [(_ & _ & Hl) | (_ & ? & _)]].
  - intros note.
    by destruct (threads_cases lat lon note) as [[? _] | [(_ & _ & Ht) | (_ & ? & _)]].
  - by destruct (label_cases lat lon) as [[? _] | [(_ & ? & _) | (_ & _ & Hl)]].
  - intros note. by apply Hinland.
  - apply is_nan_eq in H, H0. subst. reflexivity.
  - intros note. apply is_nan_eq in H, H0. subst. reflexivity.
Qed.

(** The theorem at a NaN longitude with the latitude 50.0: inland. *)
Lemma nan_classification_witness :
  (is_nan (of_Z 50) = true ∨ is_nan S754_nan = true)
  ∧ ¬ near_coast (of_Z 50) S754_nan
  ∧ synthetic_place_label (of_Z 50) S754_nan = "Inland ridge near (50.000, nan)".
Proof.
  assert (is_nan (of_Z 50) = true ∨ is_nan S754_nan = true) as Hnan
    by (right; reflexivity).
  assert (¬ near_coast (of_Z 50) S754_nan) as Hcoast
    by (intros [H | H]; vm_compute in H; discriminate H).
  split; [exact Hnan|]. split; [exact Hcoast|].
  destruct (nan_classification (of_Z 50) S754_nan Hnan) as (_ & _ & _ & _ & Hin & _).
  destruct (Hin Hcoast) as [Hl _]. rewrite Hl. vm_compute. reflexivity.
Defined.

(** ** The ordered dict *)

Section OrderedDictFacts.

Context {V : Type}.
Implicit Types (k : string) (v : V) (d : list (string * V)).

Lemma get_None k d : OrderedDict.get k d = None ↔ k ∉ OrderedDict.keys d.
Proof.
  induction d as [|[k' v'] d IH]; simpl.
  - split; [intros _; apply not_elem_of_nil | done].
  - unfold OrderedDict.keys in *. rewrite not_elem_of_cons.
    destruct (String.eqb_spec k' k) as [-> | Hne].
    + split; [done | by intros [? _]].
    + rewrite IH. split; [by intros ?; split | by intros [_ ?]].
Qed.

Lemma get_Some_elem k v d : OrderedDict.get k d = Some v → (k, v) ∈ d.
Proof.
  induction d as [|[k' v'] d IH]; simpl; [done|].
  destruct (String.eqb_spec k' k) as [-> | Hne].
  - intros [= ->]. apply list_elem_of_here.
  - intros H. apply list_elem_of_further. by apply IH.
Qed.

Lemma contains_true k d : OrderedDict.contains k d = true ↔ k ∈ OrderedDict.keys d.
Proof.
  unfold OrderedDict.contains.
  destruct (OrderedDict.get k d) eqn:Hget.
  - split; [intros _ | done].
    destruct (decide (k ∈ OrderedDict.keys d)) as [|Hnot]; [done|].
    apply get_None in Hnot. congruence.
  - split; [done|]. intros Hin. by apply get_None in Hget.
Qed.

Lemma get_set_eq k v d : OrderedDict.get k (OrderedDict.set k v d) = Some v.
Proof.
  induction d as [|[k' v'] d IH]; simpl.
  - by rewrite String.eqb_refl.
  - destruct (String.eqb_spec k' k) as [-> | Hne]; simpl.
    + by rewrite String.eqb_refl.
    + by destruct (String.eqb_spec k' k).
Qed.

(** A key the dict does not have goes to the end. *)
Lemma set_fresh k v d :
  k ∉ OrderedDict.keys d → OrderedDict.set k v d = d ++ [(k, v)].
Proof.
  induction d as [|[k' v'] d IH]; simpl; [done|].
  unfold OrderedDict.keys in *. rewrite not_elem_of_cons.
  intros [Hne Hnot]. destruct (String.eqb_spec k' k) as [-> | _]; [done|].
  by rewrite IH.
Qed.

(** A key the dict has keeps its place: the keys do not move. *)
Lemma set_keys_present k v d :
  k ∈ OrderedDict.keys d → OrderedDict.keys (OrderedDict.set k v d) = OrderedDict.keys d.
Proof.
  induction d as [|[k' v'] d IH]; simpl.
  - intros H. by apply elem_of_nil in H.
  - unfold OrderedDict.keys in *. rewrite elem_of_cons.
    destruct (String.eqb_spec k' k) as [-> | Hne]; [done|].
    intros [-> | Hin]; [done|]. rewrite fmap_cons. simpl. f_equal. by apply IH.
Qed.

End OrderedDictFacts.

(** ** One step of the store *)

Section StoreSteps.

Implicit Types (w : World) (r payload : ref).

(** [add] unfolded: the two writes through [payload], then the new entry. *)
Lemma add_unfold uuid4 utcnow payload w :
  ArtifactStore.add uuid4 utcnow payload w
  = (inl payload,
     {| heap := alter (insert "created_at" (VStr (isoformat utcnow +:+ "Z")))
                  payload (alter (insert "id" (VStr uuid4)) payload (heap w));
        _items := OrderedDict.set uuid4 payload (_items w) |}).
Proof. reflexivity. Qed.

Lemma get_unfold artifact_id w :
  ArtifactStore.get artifact_id w
  = match OrderedDict.get artifact_id (_items w) with
    | Some item => (inl item, w)
    | None => (inr (KeyError artifact_id), w)
    end.
Proof.
  unfold ArtifactStore.get, bind, read_items, OrderedDict.contains.
  by destruct (OrderedDict.get artifact_id (_items w)).
Qed.

Lemma list_unfold w : ArtifactStore.list w = (inl (stored_refs w), w).
Proof. reflexivity. Qed.

Lemma world_eta w : {| heap := heap w; _items := _items w |} = w.
Proof. by destruct w. Qed.

(** Reading leaves the state as it was. *)
Lemma get_state artifact_id w : state_after (ArtifactStore.get artifact_id) w = w.
Proof.
  unfold state_after. rewrite get_unfold.
  by destruct (OrderedDict.get artifact_id (_items w)).
Qed.

Lemma list_state w : state_after ArtifactStore.list w = w.
Proof. reflexivity. Qed.

(** [add] writes to no other object than its payload. *)
Lemma add_heap_other uuid4 utcnow payload w r :
  r ≠ payload →
  heap (state_after (ArtifactStore.add uuid4 utcnow payload) w) !! r = heap w !! r.
Proof.
  intros Hne. unfold state_after. rewrite add_unfold. simpl.
  by rewrite !lookup_alter_ne.
Qed.

Lemma add_heap_payload uuid4 utcnow payload w :
  heap (state_after (ArtifactStore.add uuid4 utcnow payload) w) !! payload
  = (λ record, <["created_at" := VStr (isoformat utcnow +:+ "Z")]>
                 (<["id" := VStr uuid4]> record)) <$> heap w !! payload.
Proof.
  unfold state_after. rewrite add_unfold. simpl.
  rewrite !lookup_alter_eq. by destruct (heap w !! payload).
Qed.

Lemma add_items uuid4 utcnow payload w :
  _items (state_after (ArtifactStore.add uuid4 utcnow payload) w)
  = OrderedDict.set uuid4 payload (_items w).
Proof. reflexivity. Qed.

End StoreSteps.

(** ** Adding and getting back *)

(** C6. For every record [r] behind the payload, [add] returns the payload
    itself, now holding [r] with "id" set to the identifier drawn and
    "created_at" set to the clock reading followed by "Z", whatever [r] held
    under these two keys, and every other field as it was; [get] of that
    identifier then returns the same object. *)
Theorem add_then_get (w : World) (uuid4 : string) (utcnow : datetime)
    (payload : ref) (r : gmap string pyval) :
  heap w !! payload = Some r →
  ∃ (w' : World) (artifact : gmap string pyval),
    ArtifactStore.add uuid4 utcnow payload w = (inl payload, w')
    ∧ heap w' !! payload = Some artifact
    ∧ artifact = <["created_at" := VStr (isoformat utcnow +:+ "Z")]> (<["id" := VStr uuid4]> r)
    ∧ artifact !! "id" = Some (VStr uuid4)
    ∧ artifact !! "created_at" = Some (VStr (isoformat utcnow +:+ "Z"))
    ∧ (∀ key, key ≠ "id" → key ≠ "created_at" → artifact !! key = r !! key)
    ∧ ArtifactStore.get uuid4 w' = (inl payload, w').
Proof.
  intros Hr.
  exists (state_after (ArtifactStore.add uuid4 utcnow payload) w).
  eexists. split; [reflexivity|].
  split; [by rewrite add_heap_payload, Hr|].
  split; [reflexivity|].
  split; [by rewrite lookup_insert_ne, lookup_insert_eq|].
  split; [by rewrite lookup_insert_eq|].
  split; [intros key Hid Hat; by rewrite !lookup_insert_ne|].
  by rewrite get_unfold, add_items, get_set_eq.
Qed.

(** The theorem on the record [{"x": 1, "id": "mine"}]: the caller's "id"
    is overwritten, "x" stays. *)
Lemma add_then_get_witness :
  ∃ (w' : World) (artifact : gmap string pyval),
    heap w' !! 7%nat = Some artifact
    ∧ artifact !! "id" = Some (VStr "3f2a")
    ∧ artifact !! "x" = Some (VInt 1)
    ∧ ArtifactStore.get "3f2a" w' = (inl 7%nat, w').
Proof.
  pose (r := <["id" := VStr "mine"]> ({[ "x" := VInt 1 ]} : gmap string pyval)).
  pose (w := ArtifactStore.init {[ 7%nat := r ]}).
  assert (heap w !! 7%nat = Some r) as Hr by reflexivity.
  destruct (add_then_get w "3f2a" (mkDatetime 2024 5 17 9 30 0 0) 7%nat r Hr)
    as (w' & artifact & _ & Hheap & _ & Hid & _ & Hother & Hget).
  exists w', artifact. repeat split; [exact Hheap | exact Hid | | exact Hget].
  rewrite Hother by discriminate. reflexivity.
Defined.

(** ** Getting what is not there *)

(** C7. For every state of the store and every identifier: [get] raises
    exactly when the identifier is not a key of the store, and what it
    raises is the [KeyError]; the state is the same after the call, raised
    or not; the handler of [GET /artifact/{id}] turns the failure into the
    404 with the detail "Artifact not found", and returns the stored
    artifact otherwise. *)
Theorem get_fails_iff_absent (w : World) (artifact_id : string) :
  ((∃ e, outcome (ArtifactStore.get artifact_id) w = inr e)
   ↔ artifact_id ∉ OrderedDict.keys (_items w))
  ∧ (∀ e, outcome (ArtifactStore.get artifact_id) w = inr e → e = KeyError artifact_id)
  ∧ state_after (ArtifactStore.get artifact_id) w = w
  ∧ (artifact_id ∉ OrderedDict.keys (_items w) →
     get_artifact artifact_id w = (inr (HTTPException 404 "Artifact not found"), w))
  ∧ (artifact_id ∈ OrderedDict.keys (_items w) →
     ∃ item, (artifact_id, item) ∈ _items w
             ∧ ArtifactStore.get artifact_id w = (inl item, w)
             ∧ get_artifact artifact_id w = (inl item, w)).
Proof.
  unfold outcome, get_artifact, bind, try_except. rewrite get_state, get_unfold.
  destruct (OrderedDict.get artifact_id (_items w)) as [item|] eqn:Hget; simpl.
  - assert (artifact_id ∈ OrderedDict.keys (_items w)) as Hin.
    { apply contains_true. unfold OrderedDict.contains. by rewrite Hget. }
    split_and!.
    + split; [by intros [e ?] | done].
    + done.
    + done.
    + done.
    + intros _. exists item. split_and!; [by apply get_Some_elem | done | done].
  - pose proof Hget as Hnot. apply get_None in Hnot.
    split_and!.
    + split; [done | intros _; by exists (KeyError artifact_id)].
    + by intros e [= <-].
    + done.
    + done.
    + done.
Qed.

(** ** What every state of the store satisfies *)

Section StoreInvariant.

Implicit Types (w : World) (r payload : ref) (c : call).

Lemma field_heap_eq w w' r key :
  heap w' !! r = heap w !! r → field w' r key = field w r key.
Proof. unfold field. by intros ->. Qed.

Lemma stored_ref_elem w k r : (k, r) ∈ _items w → r ∈ stored_refs w.
Proof.
  intros Hin. unfold stored_refs, OrderedDict.values.
  by apply (list_elem_of_fmap_2 snd) in Hin.
Qed.

Lemma store_inv_init objects : store_inv (ArtifactStore.init objects).
Proof. split; [apply NoDup_nil_2 | apply Forall_nil_2]. Qed.

(** After an admissible [add] the entries are the old ones and the new one
    at the end. *)
Lemma add_items_admissible uuid4 utcnow payload w :
  admissible (CallAdd uuid4 utcnow payload) w →
  _items (after (CallAdd uuid4 utcnow payload) w) = _items w ++ [(uuid4, payload)].
Proof. intros (Hfresh & _ & _). unfold after. rewrite add_items. by apply set_fresh. Qed.

Lemma add_field_id uuid4 utcnow payload w :
  is_Some (heap w !! payload) →
  field (after (CallAdd uuid4 utcnow payload) w) payload "id" = Some (VStr uuid4).
Proof.
  intros [record Hrecord]. unfold field, after.
  rewrite add_heap_payload, Hrecord. simpl.
  by rewrite lookup_insert_ne, lookup_insert_eq.
Qed.

Lemma store_inv_add uuid4 utcnow payload w :
  store_inv w → admissible (CallAdd uuid4 utcnow payload) w →
  store_inv (after (CallAdd uuid4 utcnow payload) w).
Proof.
  intros [Hkeys Hids] Hadm. pose proof Hadm as (Hfresh & Hnew & Hlive).
  unfold store_inv. rewrite add_items_admissible by done. split.
  - unfold OrderedDict.keys in *. rewrite fmap_app. apply NoDup_app.
    split_and!; [done | | apply NoDup_singleton].
    intros k Hk ->%list_elem_of_singleton. contradiction.
  - apply Forall_app. split.
    + apply Forall_forall. intros [k r] Hin.
      rewrite Forall_forall in Hids. rewrite <- (Hids _ Hin). simpl.
      apply field_heap_eq, add_heap_other.
      intros ->. apply Hnew. by eapply stored_ref_elem.
    + apply Forall_singleton. simpl. by apply add_field_id.
Qed.

Lemma store_inv_outside objects w :
  store_inv w →
  (∀ r, r ∈ stored_refs w → objects !! r = heap w !! r) →
  store_inv {| heap := objects; _items := _items w |}.
Proof.
  intros [Hkeys Hids] Hsame. split; [done|]. simpl.
  apply Forall_forall. intros [k r] Hin.
  rewrite Forall_forall in Hids. rewrite <- (Hids _ Hin). simpl.
  apply field_heap_eq. simpl. apply Hsame. by eapply stored_ref_elem.
Qed.

(** What [list()] returns after a call: what it returned before, then
    what the call added. *)
Lemma stored_refs_after c w :
  admissible c w → stored_refs (after c w) = stored_refs w ++ added c.
Proof.
  intros Hadm. destruct c as [uuid4 utcnow payload | | artifact_id].
  - unfold stored_refs, OrderedDict.values.
    rewrite add_items_admissible by done. by rewrite fmap_app.
  - unfold after. by rewrite list_state, app_nil_r.
  - unfold after. by rewrite get_state, app_nil_r.
Qed.

(** Over a run, [list()] is in the order of the calls. *)
Lemma stored_refs_run cs w :
  admissible_run cs w → stored_refs (run cs w) = stored_refs w ++ (cs ≫= added).
Proof.
  revert w. induction cs as [|c cs IH]; intros w; simpl.
  - intros _. by rewrite app_nil_r.
  - intros [Hadm Hrun]. unfold run in *. simpl.
    rewrite IH, stored_refs_after by done. by rewrite <- app_assoc.
Qed.

Lemma store_inv_after c w : store_inv w → admissible c w → store_inv (after c w).
Proof.
  destruct c as [uuid4 utcnow payload | | artifact_id]; unfold after.
  - apply store_inv_add.
  - by rewrite list_state.
  - by rewrite get_state.
Qed.

Lemma reachable_inv w : reachable w → store_inv w.
Proof.
  induction 1 as [objects | w c _ IH Hadm | w objects _ IH Hsame].
  - apply store_inv_init.
  - by apply store_inv_after.
  - by apply store_inv_outside.
Qed.

(** The identifiers [list()] shows are the keys, one for one. *)
Lemma stored_ids_keys w :
  store_inv w → stored_ids w = (λ k, Some (VStr k)) <$> OrderedDict.keys (_items w).
Proof.
  intros [_ Hids]. unfold stored_ids, stored_refs, OrderedDict.values, OrderedDict.keys.
  rewrite <- !list_fmap_compose. apply Forall_fmap_ext.
  eapply Forall_impl; [exact Hids|]. by intros [k r].
Qed.

Lemma stored_ids_NoDup w : store_inv w → NoDup (stored_ids w).
Proof.
  intros Hinv. rewrite stored_ids_keys by done.
  apply NoDup_fmap_2; [|by destruct Hinv].
  by intros k k' [= ->].
Qed.

End StoreInvariant.

(** ** The store over its lifetime *)

(** One dict given to [add] twice, with two different identifiers: the
    store holds the same object under both keys, [list()] shows it twice,
    and the second call has rewritten the "id" and the "created_at" of the
    artifact stored by the first. *)
Lemma add_same_dict_twice :
  let w0 := ArtifactStore.init {[ 1%nat := {[ "x" := VInt 1 ]} ]} in
  let w1 := after (CallAdd "u1" morning 1%nat) w0 in
  let w2 := after (CallAdd "u2" a_minute_later 1%nat) w1 in
  (store_inv w1 ∧ stored_refs w1 = [1%nat] ∧ OrderedDict.keys (_items w1) = ["u1"])
  ∧ (field w1 1%nat "id" = Some (VStr "u1")
     ∧ field w1 1%nat "created_at" = Some (VStr "2024-05-17T09:30:00Z"))
  ∧ (field w2 1%nat "id" = Some (VStr "u2")
     ∧ field w2 1%nat "created_at" = Some (VStr "2024-05-17T09:31:00.250000Z"))
  ∧ field w2 1%nat "id" ≠ field w1 1%nat "id"
  ∧ outcome ArtifactStore.list w2 = inl [1%nat; 1%nat]
  ∧ stored_ids w2 = [Some (VStr "u2"); Some (VStr "u2")]
  ∧ ¬ NoDup (stored_ids w2).
Proof.
  cbv zeta.
  assert (stored_ids (after (CallAdd "u2" a_minute_later 1%nat)
            (after (CallAdd "u1" morning 1%nat)
               (ArtifactStore.init {[ 1%nat := {[ "x" := VInt 1 ]} ]})))
          = [Some (VStr "u2"); Some (VStr "u2")]) as Hids by (vm_compute; reflexivity).
  split_and!; try (vm_compute; reflexivity).
  - apply store_inv_add; [apply store_inv_init|].
    split_and!; [apply not_elem_of_nil | apply not_elem_of_nil | by eexists].
  - vm_compute. discriminate.
  - rewrite Hids. intros [Hnot _]%NoDup_cons. apply Hnot, list_elem_of_here.
Qed.

Section Lifetime.

Implicit Types (w : World) (r payload : ref) (c : call).

(** A stored reference names a dict that exists. *)
Lemma stored_ref_live w r : store_inv w → r ∈ stored_refs w → is_Some (heap w !! r).
Proof.
  intros [_ Hids] Hin. unfold stored_refs, OrderedDict.values in Hin.
  apply list_elem_of_fmap in Hin as ([k r'] & -> & Hin).
  rewrite Forall_forall in Hids. specialize (Hids _ Hin). simpl in *.
  unfold field in Hids. by destruct (heap w !! r').
Qed.

(** The handler hands [add] a dict of its own: what it asks of [add] is
    admissible as soon as the identifier is not in use. *)
Lemma save_artifact_admissible uuid4 utcnow body w :
  reachable w → uuid4 ∉ OrderedDict.keys (_items w) →
  ∃ payload w1,
    new_dict body w = (inl payload, w1)
    ∧ reachable w1
    ∧ admissible (CallAdd uuid4 utcnow payload) w1
    ∧ save_artifact uuid4 utcnow body w
      = (inl payload, after (CallAdd uuid4 utcnow payload) w1).
Proof.
  intros Hreach Hfresh. pose proof (reachable_inv w Hreach) as Hinv.
  set (payload := fresh (dom (heap w))).
  assert (heap w !! payload = None) as Hnew by apply not_elem_of_dom, is_fresh.
  assert (payload ∉ stored_refs w) as Hnot.
  { intros [? Hsome]%(stored_ref_live w); [congruence | done]. }
  exists payload, {| heap := <[payload := body]> (heap w); _items := _items w |}.
  split_and!; [done | | | done].
  - apply reach_outside; [done|]. intros r Hin.
    apply lookup_insert_ne. by intros <-.
  - split_and!; [done | done | simpl; by rewrite lookup_insert_eq].
Qed.

End Lifetime.

(** C8, as the code has it. In a process where [add] is never given a dict
    the store already holds, and never draws an identifier in use, every
    operation of the store keeps what follows. The "id" fields of the stored
    artifacts are pairwise distinct. The artifacts stored before the
    operation are stored after it, each with the dict, the "id" and the
    "created_at" it had. [list()] returns the stored artifacts in the order
    they were added, the one just added last if there is one, and calling
    it changes nothing. *)
Theorem store_invariants_preserved (w : World) (c : call) :
  reachable w → admissible c w →
  reachable (after c w)
  ∧ NoDup (stored_ids w) ∧ NoDup (stored_ids (after c w))
  ∧ (∀ r, r ∈ stored_refs w →
       r ∈ stored_refs (after c w)
       ∧ heap (after c w) !! r = heap w !! r
       ∧ field (after c w) r "id" = field w r "id"
       ∧ field (after c w) r "created_at" = field w r "created_at")
  ∧ stored_refs (after c w) = stored_refs w ++ added c
  ∧ outcome ArtifactStore.list (after c w) = inl (stored_refs (after c w))
  ∧ state_after ArtifactStore.list (after c w) = after c w.
Proof.
  intros Hreach Hadm.
  assert (reachable (after c w)) as Hreach' by by apply reach_call.
  pose proof (stored_refs_after c w Hadm) as Hrefs.
  split_and!; [done | by apply stored_ids_NoDup, reachable_inv
              | by apply stored_ids_NoDup, reachable_inv | | done | done | done].
  intros r Hin.
  assert (heap (after c w) !! r = heap w !! r) as Hheap.
  { destruct c as [uuid4 utcnow payload | | artifact_id]; unfold after.
    - apply add_heap_other. intros ->. by destruct Hadm as (_ & Hnew & _).
    - by rewrite list_state.
    - by rewrite get_state. }
  split_and!; [| done | by apply field_heap_eq | by apply field_heap_eq].
  rewrite Hrefs. apply elem_of_app. by left.
Qed.

(** The theorem on a store that holds one artifact and is given a second
    dict. *)
Lemma store_invariants_witness :
  let w := after (CallAdd "u1" morning 1%nat)
             (ArtifactStore.init {[ 1%nat := {[ "x" := VInt 1 ]};
                                    2%nat := {[ "y" := VInt 2 ]} ]}) in
  let c := CallAdd "u2" a_minute_later 2%nat in
  reachable w ∧ admissible c w
  ∧ NoDup (stored_ids (after c w))
  ∧ stored_refs (after c w) = stored_refs w ++ [2%nat].
Proof.
  cbv zeta.
  assert (reachable (after (CallAdd "u1" morning 1%nat)
            (ArtifactStore.init {[ 1%nat := {[ "x" := VInt 1 ]};
                                   2%nat := {[ "y" := VInt 2 ]} ]}))) as Hreach.
  { apply reach_call; [apply reach_init|].
    split; [apply not_elem_of_nil|]. split; [apply not_elem_of_nil|].
    exists {[ "x" := VInt 1 ]}. vm_compute. reflexivity. }
  assert (admissible (CallAdd "u2" a_minute_later 2%nat)
            (after (CallAdd "u1" morning 1%nat)
               (ArtifactStore.init {[ 1%nat := {[ "x" := VInt 1 ]};
                                      2%nat := {[ "y" := VInt 2 ]} ]}))) as Hadm.
  { split; [|split].
    - intros Hin. vm_compute in Hin. apply list_elem_of_singleton in Hin. discriminate Hin.
    - intros Hin. vm_compute in Hin. apply list_elem_of_singleton in Hin. discriminate Hin.
    - exists {[ "y" := VInt 2 ]}. vm_compute. reflexivity. }
  destruct (store_invariants_preserved _ _ Hreach Hadm)
    as (_ & _ & Hids & _ & Hrefs & _).
  split; [exact Hreach|]. split; [exact Hadm|]. split; [exact Hids | exact Hrefs].
Defined.

(** * Further properties *)

(** ** More on the ordered dict *)

Section OrderedDictMore.

Context {V : Type}.
Implicit Types (k : string) (v : V) (d : list (string * V)).

(** Setting one key does not change what another key gives. *)
Lemma get_set_ne k k' v d :
  k ≠ k' → OrderedDict.get k' (OrderedDict.set k v d) = OrderedDict.get k' d.
Proof.
  intros Hne. induction d as [|[k0 v0] d IH]; simpl.
  - by destruct (String.eqb_spec k k').
  - destruct (String.eqb_spec k0 k) as [-> | Hk0]; simpl.
    + by destruct (String.eqb_spec k k').
    + by rewrite IH.
Qed.

(** Setting never changes the keys that were there, nor their order. *)
Lemma set_keys k v d :
  OrderedDict.keys (OrderedDict.set k v d)
  = OrderedDict.keys d ++ (if OrderedDict.contains k d then [] else [k]).
Proof.
  destruct (OrderedDict.contains k d) eqn:Hc.
  - rewrite app_nil_r. by apply set_keys_present, contains_true.
  - assert (k ∉ OrderedDict.keys d) as Hnot.
    { rewrite <- contains_true. congruence. }
    rewrite set_fresh by done. unfold OrderedDict.keys. by rewrite fmap_app.
Qed.

(** With distinct keys, an entry of the dict is what its key gives. *)
Lemma get_elem_NoDup k v d :
  NoDup (OrderedDict.keys d) → (k, v) ∈ d → OrderedDict.get k d = Some v.
Proof.
  induction d as [|[k0 v0] d IH]; simpl.
  - intros _ Hin. by apply elem_of_nil in Hin.
  - unfold OrderedDict.keys in *.
    intros [Hnot Hnd]%NoDup_cons [Heq | Hin]%elem_of_cons.
    + injection Heq as -> ->. by rewrite String.eqb_refl.
    + destruct (String.eqb_spec k0 k) as [-> | _]; [|by apply IH].
      exfalso. apply Hnot. by apply (list_elem_of_fmap_2 fst) in Hin.
Qed.

End OrderedDictMore.

(** ** What [add] does to the other entries, and to an entry in its way *)

Section AddEdges.

Implicit Types (w : World) (r payload : ref).



(** X2. When the identifier drawn is already a key of the store, [add]
    takes the place of the artifact stored under it: the keys and their
    order stay, [list()] keeps its length, and [get] of the identifier now
    returns the new payload, not the artifact that was there. *)
Theorem add_replaces_on_collision (w : World) (uuid4 : string) (utcnow : datetime)
    (payload old : ref) :
  ArtifactStore.get uuid4 w = (inl old, w) →
  let w' := after (CallAdd uuid4 utcnow payload) w in
  OrderedDict.keys (_items w') = OrderedDict.keys (_items w)
  ∧ length (stored_refs w') = length (stored_refs w)
  ∧ ArtifactStore.get uuid4 w' = (inl payload, w')
  ∧ (NoDup (OrderedDict.keys (_items w)) → old ≠ payload →
     old ∈ stored_refs w ∧ (uuid4, old) ∉ _items w').
Proof.
  intros Hget. cbv zeta. rewrite get_unfold in Hget.
  destruct (OrderedDict.get uuid4 (_items w)) as [old'|] eqn:Hold; [|done].
  injection Hget as ->.
  assert (uuid4 ∈ OrderedDict.keys (_items w)) as Hin.
  { apply contains_true. unfold OrderedDict.contains. by rewrite Hold. }
  assert (OrderedDict.keys (_items (after (CallAdd uuid4 utcnow payload) w))
          = OrderedDict.keys (_items w)) as Hkeys.
  { unfold after. rewrite add_items. by apply set_keys_present. }
  split_and!.
  - done.
  - unfold stored_refs, OrderedDict.values. rewrite !length_fmap.
    apply (f_equal length) in Hkeys. unfold OrderedDict.keys in Hkeys.
    by rewrite !length_fmap in Hkeys.
  - unfold after. by rewrite get_unfold, add_items, get_set_eq.
  - intros Hnd Hne. split.
    + eapply stored_ref_elem. by apply get_Some_elem.
    + intros Hstill. apply Hne.
      assert (OrderedDict.get uuid4 (_items (after (CallAdd uuid4 utcnow payload) w))
              = Some old) as Hnow.
      { apply get_elem_NoDup; [by rewrite Hkeys | done]. }
      unfold after in Hnow. rewrite add_items, get_set_eq in Hnow. congruence.
Qed.

Lemma add_replaces_on_collision_witness :
  let w := after (CallAdd "u1" morning 1%nat)
             (ArtifactStore.init {[ 1%nat := {[ "x" := VInt 1 ]};
                                    2%nat := {[ "y" := VInt 2 ]} ]}) in
  let w' := after (CallAdd "u1" a_minute_later 2%nat) w in
  ArtifactStore.get "u1" w = (inl 1%nat, w)
  ∧ ArtifactStore.get "u1" w' = (inl 2%nat, w')
  ∧ length (stored_refs w') = 1%nat.
Proof.
  cbv zeta.
  assert (ArtifactStore.get "u1"
            (after (CallAdd "u1" morning 1%nat)
               (ArtifactStore.init {[ 1%nat := {[ "x" := VInt 1 ]};
                                      2%nat := {[ "y" := VInt 2 ]} ]}))
          = (inl 1%nat,
             after (CallAdd "u1" morning 1%nat)
               (ArtifactStore.init {[ 1%nat := {[ "x" := VInt 1 ]};
                                      2%nat := {[ "y" := VInt 2 ]} ]}))) as Hget
    by reflexivity.
  destruct (add_replaces_on_collision _ "u1" a_minute_later 2%nat 1%nat Hget)
    as (_ & Hlen & Hnew & _).
  split; [exact Hget|]. split; [exact Hnew|]. rewrite Hlen. reflexivity.
Defined.

End AddEdges.

(** ** Listing and getting agree *)

Section ListAndGet.

Implicit Types (w : World) (r payload : ref) (c : call).

Lemma reachable_run cs w : reachable w → admissible_run cs w → reachable (run cs w).
Proof.
  revert w. induction cs as [|c cs IH]; intros w Hreach; simpl; [done|].
  intros [Hadm Hrun]. apply IH; [by apply reach_call | done].
Qed.

Lemma stored_refs_elem_inv w r : r ∈ stored_refs w → ∃ k, (k, r) ∈ _items w.
Proof.
  unfold stored_refs, OrderedDict.values.
  intros ([k r'] & -> & Hin)%list_elem_of_fmap. by exists k.
Qed.

End ListAndGet.

(** X3. In a process where every [add] is admissible, [list()] and [get]
    tell the same story: every artifact [list()] returns carries a string
    "id", and [get] of that string returns this very artifact; and every
    artifact [get] returns is one that [list()] returns, stored under the
    identifier asked for. *)
Theorem listed_iff_gettable (w : World) :
  reachable w →
  (∀ r, r ∈ stored_refs w →
     ∃ k, field w r "id" = Some (VStr k) ∧ ArtifactStore.get k w = (inl r, w))
  ∧ (∀ k r, outcome (ArtifactStore.get k) w = inl r →
       r ∈ stored_refs w ∧ field w r "id" = Some (VStr k)).
Proof.
  intros [Hkeys Hids]%reachable_inv. rewrite Forall_forall in Hids. split.
  - intros r [k Hin]%stored_refs_elem_inv. exists k.
    split; [exact (Hids _ Hin)|].
    by rewrite get_unfold, (get_elem_NoDup k r).
  - intros k r. unfold outcome. rewrite get_unfold.
    destruct (OrderedDict.get k (_items w)) as [r'|] eqn:Hget; [|done].
    intros [= ->]. apply get_Some_elem in Hget.
    split; [by eapply stored_ref_elem | exact (Hids _ Hget)].
Qed.

Lemma listed_iff_gettable_witness :
  let w := after (CallAdd "u1" morning 1%nat)
             (ArtifactStore.init {[ 1%nat := {[ "x" := VInt 1 ]} ]}) in
  reachable w
  ∧ ∃ k, field w 1%nat "id" = Some (VStr k) ∧ ArtifactStore.get k w = (inl 1%nat, w).
Proof.
  cbv zeta.
  assert (reachable (after (CallAdd "u1" morning 1%nat)
            (ArtifactStore.init {[ 1%nat := {[ "x" := VInt 1 ]} ]}))) as Hreach.
  { apply reach_call; [apply reach_init|].
    split; [apply not_elem_of_nil|]. split; [apply not_elem_of_nil|].
    exists {[ "x" := VInt 1 ]}. vm_compute. reflexivity. }
  split; [exact Hreach|].
  destruct (listed_iff_gettable _ Hreach) as [Hlisted _].
  apply Hlisted. vm_compute. apply list_elem_of_here.
Defined.

(** X4. From the empty store, a run of calls in which every [add] is
    admissible leaves in [list()] exactly the payloads added, in the order
    of the calls: as many artifacts as there were [add]s, with pairwise
    distinct "id"s. *)
Theorem list_after_run (cs : list call) (objects : gmap ref (gmap string pyval)) :
  admissible_run cs (ArtifactStore.init objects) →
  let w := run cs (ArtifactStore.init objects) in
  outcome ArtifactStore.list w = inl (cs ≫= added)
  ∧ length (stored_ids w) = length (cs ≫= added)
  ∧ NoDup (stored_ids w).
Proof.
  intros Hrun. cbv zeta.
  pose proof (stored_refs_run cs _ Hrun) as Hrefs. simpl in Hrefs.
  split_and!.
  - unfold outcome. rewrite list_unfold. simpl. by rewrite Hrefs.
  - unfold stored_ids. by rewrite length_fmap, Hrefs.
  - apply stored_ids_NoDup, reachable_inv, reachable_run; [apply reach_init | done].
Qed.

Lemma list_after_run_witness :
  let objects : gmap ref (gmap string pyval) :=
    {[ 1%nat := {[ "x" := VInt 1 ]}; 2%nat := {[ "y" := VInt 2 ]} ]} in
  let cs := [CallAdd "u1" morning 1%nat; CallList; CallAdd "u2" a_minute_later 2%nat] in
  outcome ArtifactStore.list (run cs (ArtifactStore.init objects)) = inl [1%nat; 2%nat].
Proof.
  cbv zeta.
  refine (proj1 (list_after_run
    [CallAdd "u1" morning 1%nat; CallList; CallAdd "u2" a_minute_later 2%nat]
    {[ 1%nat := {[ "x" := VInt 1 ]}; 2%nat := {[ "y" := VInt 2 ]} ]} _)).
  split; [|split; [|split]]; try exact I.
  - split; [apply not_elem_of_nil|]. split; [apply not_elem_of_nil|].
    exists {[ "x" := VInt 1 ]}. vm_compute. reflexivity.
  - split; [|split].
    + intros Hin. vm_compute in Hin. apply list_elem_of_singleton in Hin. discriminate Hin.
    + intros Hin. vm_compute in Hin. apply list_elem_of_singleton in Hin. discriminate Hin.
    + exists {[ "y" := VInt 2 ]}. vm_compute. reflexivity.
Defined.

(** ** The store behind its routes *)

Section Routes.

Implicit Types (w : World) (r : ref) (q : request) (qs : list request).

(** [save_artifact] unfolded: a new dict with the body, then [add] on it. *)
Lemma save_artifact_unfold uuid4 utcnow body w :
  save_artifact uuid4 utcnow body w
  = (inl (fresh (dom (heap w))),
     after (CallAdd uuid4 utcnow (fresh (dom (heap w))))
       {| heap := <[fresh (dom (heap w)) := body]> (heap w); _items := _items w |}).
Proof. reflexivity. Qed.

Lemma save_artifact_state uuid4 utcnow body w :
  state_after (save_artifact uuid4 utcnow body) w
  = state_after (ArtifactStore.add uuid4 utcnow (fresh (dom (heap w))))
      {| heap := <[fresh (dom (heap w)) := body]> (heap w); _items := _items w |}.
Proof. reflexivity. Qed.

Lemma get_artifact_state artifact_id w : state_after (get_artifact artifact_id) w = w.
Proof.
  unfold state_after, get_artifact, bind, try_except. rewrite get_unfold.
  by destruct (OrderedDict.get artifact_id (_items w)).
Qed.

Lemma list_artifacts_state w : state_after list_artifacts w = w.
Proof. reflexivity. Qed.

(** What the handler of [POST /artifact] leaves in the dict it made. *)
Lemma save_artifact_record uuid4 utcnow body w :
  heap (state_after (save_artifact uuid4 utcnow body) w) !! fresh (dom (heap w))
  = Some (stamped uuid4 utcnow body).
Proof.
  rewrite save_artifact_state, add_heap_payload. simpl. by rewrite lookup_insert_eq.
Qed.

(** It writes to no dict that was there. *)
Lemma save_artifact_heap_other uuid4 utcnow body w r :
  is_Some (heap w !! r) →
  heap (state_after (save_artifact uuid4 utcnow body) w) !! r = heap w !! r.
Proof.
  intros Hlive.
  assert (r ≠ fresh (dom (heap w))) as Hne.
  { intros ->. pose proof (is_fresh (dom (heap w))) as Hfresh.
    apply not_elem_of_dom in Hfresh. rewrite Hfresh in Hlive. by destruct Hlive. }
  rewrite save_artifact_state, add_heap_other by done. simpl. by rewrite lookup_insert_ne.
Qed.

Lemma save_artifact_items uuid4 utcnow body w :
  _items (state_after (save_artifact uuid4 utcnow body) w)
  = OrderedDict.set uuid4 (fresh (dom (heap w))) (_items w).
Proof. reflexivity. Qed.

(** A request with a new identifier leads from a state of the process to a
    state of the process. *)
Lemma serve_reachable q w : reachable w → fresh_ids [q] w → reachable (serve q w).
Proof.
  intros Hreach [Hfresh _]. destruct q as [uuid4 utcnow body | | artifact_id]; cbn [serve].
  - destruct (save_artifact_admissible uuid4 utcnow body w Hreach Hfresh)
      as (payload & w1 & _ & Hreach1 & Hadm & Hsave).
    unfold state_after. rewrite Hsave. cbn [snd]. by apply reach_call.
  - by rewrite list_artifacts_state.
  - by rewrite get_artifact_state.
Qed.

(** It keeps every entry of the store, and the dict behind it. *)
Lemma serve_keeps q w k r :
  reachable w → fresh_ids [q] w →
  OrderedDict.get k (_items w) = Some r →
  OrderedDict.get k (_items (serve q w)) = Some r ∧ heap (serve q w) !! r = heap w !! r.
Proof.
  intros Hreach [Hfresh _] Hget.
  destruct q as [uuid4 utcnow body | | artifact_id]; cbn [serve].
  - split.
    + rewrite save_artifact_items, get_set_ne; [done|].
      intros ->. apply get_None in Hfresh. congruence.
    + apply save_artifact_heap_other.
      apply stored_ref_live; [by apply reachable_inv|].
      eapply stored_ref_elem. by apply get_Some_elem.
  - by rewrite list_artifacts_state.
  - by rewrite get_artifact_state.
Qed.

(** What [list()] shows after a request: what it showed, then the record
    posted if there is one. *)
Lemma serve_records q w :
  reachable w → fresh_ids [q] w →
  stored_records (serve q w) = stored_records w ++ (Some <$> posted [q]).
Proof.
  intros Hreach [Hfresh _].
  destruct q as [uuid4 utcnow body | | artifact_id]; cbn [serve].
  - change (posted [PostArtifact uuid4 utcnow body]) with [stamped uuid4 utcnow body].
    unfold stored_records, stored_refs, OrderedDict.values.
    rewrite save_artifact_items, set_fresh by done.
    rewrite !fmap_app. cbn [fmap list_fmap snd]. rewrite save_artifact_record. f_equal.
    apply list_fmap_ext. intros i r Hr.
    apply save_artifact_heap_other, stored_ref_live; [by apply reachable_inv|].
    by eapply list_elem_of_lookup_2.
  - rewrite list_artifacts_state. change (posted [GetArtifacts]) with (@nil (gmap string pyval)).
    by rewrite app_nil_r.
  - rewrite get_artifact_state.
    change (posted [GetArtifact artifact_id]) with (@nil (gmap string pyval)).
    by rewrite app_nil_r.
Qed.

Lemma serve_all_reachable qs w : reachable w → fresh_ids qs w → reachable (serve_all qs w).
Proof.
  revert w. induction qs as [|q qs IH]; intros w Hreach; simpl; [done|].
  intros [Hfresh Hrest]. apply IH; [|done]. by apply serve_reachable.
Qed.

Lemma serve_all_records qs w :
  reachable w → fresh_ids qs w →
  stored_records (serve_all qs w) = stored_records w ++ (Some <$> posted qs).
Proof.
  revert w. induction qs as [|q qs IH]; intros w Hreach Hfresh.
  - change (serve_all [] w) with w. change (posted []) with (@nil (gmap string pyval)).
    by rewrite app_nil_r.
  - destruct Hfresh as [Hfresh Hrest].
    assert (fresh_ids [q] w) as Hq by done.
    change (serve_all (q :: qs) w) with (serve_all qs (serve q w)).
    rewrite IH; [| by apply serve_reachable | done].
    rewrite serve_records by done.
    unfold posted. rewrite !bind_cons. change (@nil request ≫= _) with (@nil (gmap string pyval)).
    by rewrite app_nil_r, fmap_app, app_assoc.
Qed.

Lemma serve_all_keeps qs w k r :
  reachable w → fresh_ids qs w →
  OrderedDict.get k (_items w) = Some r →
  OrderedDict.get k (_items (serve_all qs w)) = Some r
  ∧ heap (serve_all qs w) !! r = heap w !! r.
Proof.
  revert w. induction qs as [|q qs IH]; intros w Hreach; simpl; [done|].
  intros [Hfresh Hrest] Hget.
  assert (fresh_ids [q] w) as Hq by done.
  destruct (serve_keeps q w k r Hreach Hq Hget) as [Hget' Hheap'].
  destruct (IH (serve q w) (serve_reachable q w Hreach Hq) Hrest Hget') as [Hget'' Hheap''].
  split; [done | congruence].
Qed.

End Routes.

(** X5. Whatever the state, the handler of [POST /artifact] puts the body
    in a dict that did not exist before, leaves in it the body with "id"
    and "created_at" written over, writes to no dict that existed, and
    [GET /artifact/{id}] with the identifier drawn then returns that dict. *)
Theorem post_then_get (w : World) (uuid4 : string) (utcnow : datetime)
    (body : gmap string pyval) :
  ∃ (r : ref) (w' : World),
    save_artifact uuid4 utcnow body w = (inl r, w')
    ∧ heap w !! r = None
    ∧ heap w' !! r = Some (stamped uuid4 utcnow body)
    ∧ (∀ r', is_Some (heap w !! r') → heap w' !! r' = heap w !! r')
    ∧ get_artifact uuid4 w' = (inl r, w').
Proof.
  exists (fresh (dom (heap w))), (state_after (save_artifact uuid4 utcnow body) w).
  split_and!.
  - reflexivity.
  - apply not_elem_of_dom, is_fresh.
  - apply save_artifact_record.
  - intros r' Hlive. by apply save_artifact_heap_other.
  - unfold get_artifact, bind, try_except.
    by rewrite get_unfold, save_artifact_items, get_set_eq.
Qed.

(** X6. An artifact posted with a new identifier stays: after any further
    requests to the store's routes, each [POST] drawing a new identifier,
    [GET /artifact/{id}] still returns it, and its dict still holds the
    body with the "id" and "created_at" written at the time. *)
Theorem posted_artifact_stays (w : World) (uuid4 : string) (utcnow : datetime)
    (body : gmap string pyval) (qs : list request) :
  reachable w →
  fresh_ids (PostArtifact uuid4 utcnow body :: qs) w →
  let w' := serve_all (PostArtifact uuid4 utcnow body :: qs) w in
  ∃ r : ref,
    get_artifact uuid4 w' = (inl r, w')
    ∧ heap w' !! r = Some (stamped uuid4 utcnow body).
Proof.
  intros Hreach [Hfresh Hrest]. cbv zeta.
  change (serve_all (PostArtifact uuid4 utcnow body :: qs) w)
    with (serve_all qs (serve (PostArtifact uuid4 utcnow body) w)).
  set (w1 := serve (PostArtifact uuid4 utcnow body) w) in *.
  assert (reachable w1) as Hreach1 by by apply serve_reachable.
  assert (OrderedDict.get uuid4 (_items w1) = Some (fresh (dom (heap w)))) as Hget.
  { unfold w1. cbn [serve]. by rewrite save_artifact_items, get_set_eq. }
  destruct (serve_all_keeps qs w1 _ _ Hreach1 Hrest Hget) as [Hget' Hheap'].
  exists (fresh (dom (heap w))). split.
  - unfold get_artifact, bind, try_except. by rewrite get_unfold, Hget'.
  - rewrite Hheap'. apply save_artifact_record.
Qed.

Lemma posted_artifact_stays_witness :
  let qs := [PostArtifact "u1" morning {[ "x" := VInt 1 ]};
             GetArtifact "nope";
             PostArtifact "u2" a_minute_later {[ "x" := VInt 2 ]}] in
  ∃ r : ref,
    get_artifact "u1" (serve_all qs (ArtifactStore.init ∅))
    = (inl r, serve_all qs (ArtifactStore.init ∅))
    ∧ heap (serve_all qs (ArtifactStore.init ∅)) !! r
      = Some (stamped "u1" morning {[ "x" := VInt 1 ]}).
Proof.
  cbv zeta.
  apply (posted_artifact_stays (ArtifactStore.init ∅) "u1" morning {[ "x" := VInt 1 ]}
           [GetArtifact "nope"; PostArtifact "u2" a_minute_later {[ "x" := VInt 2 ]}]).
  - apply reach_init.
  - split; [apply not_elem_of_nil|]. split; [exact I|]. split; [|exact I].
    intros Hin. vm_compute in Hin. apply list_elem_of_singleton in Hin. discriminate Hin.
Defined.

(** X7. From the empty store, after any requests to the store's routes in
    which each [POST] draws a new identifier, [GET /artifacts] shows exactly
    the bodies posted, each with its "id" and "created_at" written over, in
    the order they were posted, and their "id"s are pairwise distinct. *)
Theorem list_artifacts_shows_posted (qs : list request)
    (objects : gmap ref (gmap string pyval)) :
  fresh_ids qs (ArtifactStore.init objects) →
  let w := serve_all qs (ArtifactStore.init objects) in
  outcome list_artifacts w = inl (stored_refs w)
  ∧ stored_records w = Some <$> posted qs
  ∧ length (stored_refs w) = length (posted qs)
  ∧ NoDup (stored_ids w).
Proof.
  intros Hfresh. cbv zeta.
  pose proof (serve_all_records qs _ (reach_init objects) Hfresh) as Hrecords.
  change (stored_records (ArtifactStore.init objects))
    with (@nil (option (gmap string pyval))) in Hrecords.
  rewrite app_nil_l in Hrecords.
  split_and!.
  - reflexivity.
  - exact Hrecords.
  - apply (f_equal length) in Hrecords. unfold stored_records in Hrecords.
    by rewrite !length_fmap in Hrecords.
  - apply stored_ids_NoDup, reachable_inv, serve_all_reachable; [apply reach_init | done].
Qed.

Lemma list_artifacts_shows_posted_witness :
  let qs := [PostArtifact "u1" morning {[ "x" := VInt 1 ]};
             GetArtifacts;
             PostArtifact "u2" a_minute_later {[ "x" := VInt 2 ]}] in
  stored_records (serve_all qs (ArtifactStore.init ∅))
  = [Some (stamped "u1" morning {[ "x" := VInt 1 ]});
     Some (stamped "u2" a_minute_later {[ "x" := VInt 2 ]})].
Proof.
  cbv zeta.
  refine (proj1 (proj2 (list_artifacts_shows_posted
    [PostArtifact "u1" morning {[ "x" := VInt 1 ]};
     GetArtifacts;
     PostArtifact "u2" a_minute_later {[ "x" := VInt 2 ]}] ∅ _))).
  split; [apply not_elem_of_nil|]. split; [exact I|]. split; [|exact I].
  intros Hin. vm_compute in Hin. apply list_elem_of_singleton in Hin. discriminate Hin.
Defined.

(** ** Strings put together *)

Section AppendFacts.

Lemma length_append (s t : string) :
  String.length (s +:+ t) = (String.length s + String.length t)%nat.
Proof.
  induction s as [|c s IH]; [reflexivity|].
  change (S (String.length (s +:+ t)) = S (String.length s + String.length t)).
  by rewrite IH.
Qed.

(** The same ending can be taken off both sides. *)
Lemma append_cancel_r (s t u : string) : s +:+ u = t +:+ u → s = t.
Proof.
  revert t. induction s as [|c s IH]; intros [|d t] H.
  - reflexivity.
  - apply (f_equal String.length) in H. rewrite !length_append in H. simpl in H. lia.
  - apply (f_equal String.length) in H. rewrite !length_append in H. simpl in H. lia.
  - change (String c (s +:+ u) = String d (t +:+ u)) in H.
    injection H as -> H. f_equal. by apply IH.
Qed.

Lemma append_cancel_l (p s t : string) : p +:+ s = p +:+ t → s = t.
Proof.
  induction p as [|c p IH]; [done|].
  change (String c (p +:+ s) = String c (p +:+ t) → s = t).
  intros H. injection H as H. by apply IH.
Qed.

End AppendFacts.

(** ** The threads of a response *)

Lemma build_threads_by_prefix (lat lon : spec_float) (note : string) :
  build_threads lat lon note = build_threads lat lon (PyStr.slice_to 80 note).
Proof. unfold build_threads. by rewrite slice_to_idem. Qed.

(** X8. Whatever the coordinates and the note, every thread of a response
    has one of the three support levels "supported", "likely" and
    "speculative", two or three suggested sources and a summary that is not
    empty, and no two threads of a response have the same title. *)
Theorem threads_well_formed (lat lon : spec_float) (note : string) :
  (∀ t, t ∈ build_threads lat lon note →
     support_level t ∈ ["supported"; "likely"; "speculative"]
     ∧ (2 ≤ length (suggested_sources t) ≤ 3)%nat
     ∧ summary t ≠ "")
  ∧ NoDup (title <$> build_threads lat lon note).
Proof.
  unfold build_threads.
  destruct ((lt lit_36_0 lat && lt lat lit_41_0) && (lt lit_m10_0 lon && lt lon lit_m4_0));
    [|destruct (lt (abs lon) lit_20 || lt (abs lat) lit_15)];
    (split;
     [ intros t Ht; simpl in Ht;
       repeat (apply elem_of_cons in Ht as [-> | Ht];
               [split_and!; [by apply (bool_decide_unpack _) | simpl; lia | simpl; lia
                             | discriminate]|]);
       by apply elem_of_nil in Ht
     | by apply (bool_decide_unpack _) ]).
Qed.

(** X9. The note reaches the threads through its first 80 characters, and
    through the last thread only: the first two threads are the same for
    every note, and two notes give the same list of threads exactly when
    their first 80 characters are the same. *)
Theorem threads_depend_on_note_prefix (lat lon : spec_float) (note note' : string) :
  take 2 (build_threads lat lon note) = take 2 (build_threads lat lon note')
  ∧ (build_threads lat lon note = build_threads lat lon note'
     ↔ PyStr.slice_to 80 note = PyStr.slice_to 80 note').
Proof.
  split.
  - unfold build_threads.
    destruct ((lt lit_36_0 lat && lt lat lit_41_0) && (lt lit_m10_0 lon && lt lon lit_m4_0));
      [|destruct (lt (abs lon) lit_20 || lt (abs lat) lit_15)]; reflexivity.
  - split.
    + intros Heq.
      assert (overlay_summary lat lon note = overlay_summary lat lon note') as Hsum
        by (unfold overlay_summary; by rewrite Heq).
      rewrite !overlay_summary_eq in Hsum. injection Hsum as Hsum.
      by apply append_cancel_l, append_cancel_r in Hsum.
    + intros Heq.
      by rewrite (build_threads_by_prefix lat lon note), Heq, <- build_threads_by_prefix.
Qed.

(** ** What the draft keeps of the note *)

(** X10. For the two output types that quote the note, "micro-story" and
    "postcard", two notes give the same draft for a title exactly when their
    first 100 characters are the same. *)
Theorem draft_depends_on_note_prefix (thread_title output_type note note' : string) :
  output_type = "micro-story" ∨ output_type = "postcard" →
  draft thread_title output_type note = draft thread_title output_type note'
  ↔ PyStr.slice_to 100 note = PyStr.slice_to 100 note'.
Proof.
  intros Htype. split.
  - intros Heq. apply (f_equal draft_text) in Heq.
    destruct Htype as [-> | ->]; unfold draft in Heq; simpl in Heq.
    + apply append_cancel_r in Heq. by do 3 apply append_cancel_l in Heq.
    + apply append_cancel_l, append_cancel_r in Heq. by do 3 apply append_cancel_l in Heq.
  - intros Heq. unfold draft. by rewrite Heq.
Qed.

Lemma draft_depends_on_note_prefix_witness :
  draft "T" "postcard" "hello" = draft "T" "postcard" "hello"
  ↔ PyStr.slice_to 100 "hello" = PyStr.slice_to 100 "hello".
Proof.
  apply (draft_depends_on_note_prefix "T" "postcard" "hello" "hello").
  right. reflexivity.
Defined.

(** X11. The draft has a length the note cannot push up: for "micro-story"
    it is the length of the title, plus the length of the note up to 100,
    plus 160; for "postcard" the same with 106; and for every output type it
    is at most the length of the title plus 260. *)
Theorem draft_length (thread_title output_type note : string) :
  String.length (draft_text (draft thread_title "micro-story" note))
  = (String.length thread_title + Nat.min 100 (String.length note) + 160)%nat
  ∧ String.length (draft_text (draft thread_title "postcard" note))
    = (String.length thread_title + Nat.min 100 (String.length note) + 106)%nat
  ∧ (String.length (draft_text (draft thread_title output_type note))
     ≤ String.length thread_title + 260)%nat.
Proof.
  assert (String.length (draft_text (draft thread_title "micro-story" note))
          = (String.length thread_title + Nat.min 100 (String.length note) + 160)%nat)
    as Hmicro.
  { unfold draft. rewrite String.eqb_refl. cbn [draft_text].
    rewrite !length_append, slice_to_length. simpl. lia. }
  assert (String.length (draft_text (draft thread_title "postcard" note))
          = (String.length thread_title + Nat.min 100 (String.length note) + 106)%nat)
    as Hpost.
  { unfold draft. change (String.eqb "postcard" "micro-story") with false.
    rewrite String.eqb_refl. cbn [draft_text].
    rewrite !length_append, slice_to_length. simpl. lia. }
  split_and!; [done | done |].
  destruct (String.eqb_spec output_type "micro-story") as [-> | Hms]; [lia|].
  destruct (String.eqb_spec output_type "postcard") as [-> | Hpc]; [lia|].
  unfold draft. apply String.eqb_neq in Hms, Hpc. rewrite Hms, Hpc. simpl. lia.
Qed.

(** ** The coordinates as printed *)

Section PrintedCoordinates.

Lemma format_f_finite (nd : nat) (s : bool) (m : positive) (e : Z) :
  format_f nd (S754_finite s m e) = sign_str s +:+ fixed_digits nd (printed_units nd m e).
Proof. reflexivity. Qed.

Lemma round_half_even_nonneg num den : 0 ≤ num → 0 < den → 0 ≤ round_half_even num den.
Proof.
  intros Hnum Hden. unfold round_half_even.
  assert (0 ≤ num / den) by (apply Z.div_pos; lia).
  destruct (2 * (num mod den) ?= den); [destruct (Z.even _)|..]; lia.
Qed.

Lemma printed_units_nonneg nd m e : 0 ≤ printed_units nd m e.
Proof.
  unfold printed_units.
  assert (0 < 10 ^ Z.of_nat nd) by (apply Z.pow_pos_nonneg; lia).
  destruct e as [|p|p].
  - lia.
  - assert (0 < 2 ^ Zpos p) by (apply Z.pow_pos_nonneg; lia). nia.
  - apply round_half_even_nonneg; [nia|]. apply Z.pow_pos_nonneg; lia.
Qed.

(** Counted in units of 2^-1074 / 1000, the number printed is within half
    a thousandth of the value. *)
Lemma printed_units_close (m : positive) (e : Z) :
  -1074 ≤ e →
  2 * Z.abs (printed_units 3 m e * 2 ^ 1074 - 1000 * (Zpos m * 2 ^ (e + 1074))) ≤ 2 ^ 1074.
Proof.
  intros He. unfold printed_units. change (10 ^ Z.of_nat 3) with 1000.
  destruct e as [|p|p].
  - change (2 ^ 0) with 1. change (0 + 1074) with 1074.
    replace (_ - _) with 0 by ring. simpl Z.abs. 
    assert (0 < 2 ^ 1074) by (apply Z.pow_pos_nonneg; lia). lia.
  - rewrite Z.pow_add_r by lia.
    replace (_ - _) with 0 by ring. simpl Z.abs.
    assert (0 < 2 ^ 1074) by (apply Z.pow_pos_nonneg; lia). lia.
  - assert (0 < 2 ^ Zpos p) as Hden by (apply Z.pow_pos_nonneg; lia).
    destruct (round_half_even_nearest (Zpos m * 1000) (2 ^ Zpos p) Hden) as [Hnear _].
    cbv zeta in Hnear.
    remember (round_half_even (Zpos m * 1000) (2 ^ Zpos p)) as q eqn:Hq. clear Hq.
    assert (2 ^ 1074 = 2 ^ Zpos p * 2 ^ (Zneg p + 1074)) as Hsplit.
    { rewrite <- Z.pow_add_r by lia. f_equal. lia. }
    assert (0 ≤ 2 ^ (Zneg p + 1074)) as Hk by (apply Z.pow_nonneg; lia).
    rewrite Hsplit.
    generalize dependent (2 ^ (Z.neg p + 1074)). generalize dependent (2 ^ Zpos p).
    intros D HD Hnear K _ HK.
    replace (q * (D * K) - 1000 * (Zpos m * K)) with (- (Zpos m * 1000 - q * D) * K) by ring.
    rewrite Z.abs_mul, Z.abs_opp, (Z.abs_eq K) by done.
    rewrite Z.abs_mul in Hnear. change (Z.abs 2) with 2 in Hnear. nia.
Qed.

Lemma printed_units_value (s : bool) (m : positive) (e : Z) :
  -1074 ≤ e →
  (Qabs ((printed_units 3 m e # 1000) - Qabs (value (S754_finite s m e))) <= 1 # 2000)%Q.
Proof.
  intros He. pose proof (printed_units_close m e He) as Hclose.
  assert (0 ≤ 2 ^ (e + 1074)) as Hpow by (apply Z.pow_nonneg; lia).
  assert (Z.abs (ulps (S754_finite s m e)) = Zpos m * 2 ^ (e + 1074)) as Habs.
  { unfold ulps. destruct s; [rewrite Z.abs_neq by nia | rewrite Z.abs_eq by nia]; lia. }
  unfold value, Qabs at 2. rewrite Habs.
  unfold Qminus, Qplus, Qopp, Qabs, Qle. cbn [Qnum Qden].
  rewrite Pos2Z.inj_mul, Pos2Z.inj_pow.
  change (Z.pos 2) with 2 in *. change (Z.pos 1074) with 1074 in *.
  change (Z.pos 1000) with 1000. change (Z.pos 2000) with 2000.
  generalize dependent (2 ^ 1074). intros P HP.
  replace (printed_units 3 m e * P + - (Z.pos m * 2 ^ (e + 1074)) * 1000)
    with (printed_units 3 m e * P - 1000 * (Z.pos m * 2 ^ (e + 1074))) by ring.
  lia.
Qed.

Lemma three_decimals (n : Z) :
  0 ≤ n < 1000 → String.length (zero_pad 3 (decimal n)) = 3%nat.
Proof.
  intros Hn.
  assert (forallb (λ i, Nat.eqb (String.length (zero_pad 3 (decimal (Z.of_nat i)))) 3)
            (seq 0 1000) = true) as Hall by (vm_compute; reflexivity).
  rewrite forallb_forall in Hall.
  specialize (Hall (Z.to_nat n)). rewrite Z2Nat.id in Hall by lia.
  apply Nat.eqb_eq, Hall, in_seq. lia.
Qed.

End PrintedCoordinates.

(** X12. For every finite binary64 coordinate, what the label prints is a
    sign, an integer part, a point and exactly three decimals, and the
    number these digits write is within 0.0005 of the absolute value of the
    coordinate; the sign is the sign of the coordinate. *)
Theorem label_coordinate_accuracy (x : spec_float) :
  is_binary64 x = true → is_finite x = true →
  ∃ (negative : bool) (q : Z) (frac : string),
    format_f 3 x = sign_str negative +:+ decimal (q / 1000) +:+ "." +:+ frac
    ∧ frac = zero_pad 3 (decimal (q mod 1000))
    ∧ String.length frac = 3%nat
    ∧ 0 ≤ q
    ∧ (Qabs ((q # 1000) - Qabs (value x)) <= 1 # 2000)%Q
    ∧ (if negative then value x <= 0 else 0 <= value x)%Q.
Proof.
  intros Hvalid Hfinite.
  destruct x as [s | s | | s m e]; try discriminate Hfinite.
  - exists s, 0, "000". split_and!; try reflexivity; try done.
    destruct s; done.
  - pose proof Hvalid as (He & _)%bounded_inv.
    exists s, (printed_units 3 m e), (zero_pad 3 (decimal (printed_units 3 m e mod 1000))).
    assert (0 ≤ 2 ^ (e + 1074)) as Hpow by (apply Z.pow_nonneg; lia).
    split_and!.
    + by rewrite format_f_finite.
    + reflexivity.
    + apply three_decimals, Z.mod_pos_bound. lia.
    + apply printed_units_nonneg.
    + by apply printed_units_value.
    + unfold value, ulps, Qle. cbn [Qnum Qden]. destruct s; cbn [Qnum Qden]; nia.
Qed.

Lemma label_coordinate_accuracy_witness :
  ∃ (negative : bool) (q : Z) (frac : string),
    format_f 3 f_m9_1 = sign_str negative +:+ decimal (q / 1000) +:+ "." +:+ frac
    ∧ String.length frac = 3%nat.
Proof.
  destruct (label_coordinate_accuracy f_m9_1 eq_refl eq_refl)
    as (negative & q & frac & Hprint & _ & Hlen & _).
  exists negative, q, frac. split; [exact Hprint | exact Hlen].
Defined.

(** ** Coordinates without end *)

(** X13. When the latitude or the longitude is infinite the place is never
    riverside; the test on the infinite coordinate fails, so the place is
    coastal exactly when the other coordinate passes its own test, and
    inland when both are infinite; the label prints an infinite coordinate
    as "inf" or "-inf". *)
Theorem infinite_classification (lat lon : spec_float) :
  is_infinite lat = true ∨ is_infinite lon = true →
  ¬ in_river_band lat lon
  ∧ (is_infinite lat = true →
       (near_coast lat lon ↔ lt (abs lon) lit_20 = true)
       ∧ (format_f 3 lat = "inf" ∨ format_f 3 lat = "-inf"))
  ∧ (is_infinite lon = true →
       (near_coast lat lon ↔ lt (abs lat) lit_15 = true)
       ∧ (format_f 3 lon = "inf" ∨ format_f 3 lon = "-inf"))
  ∧ (is_infinite lat = true → is_infinite lon = true →
       synthetic_place_label lat lon = inland_label lat lon).
Proof.
  intros Hinf. split_and!.
  - intros [[H1 H2] [H3 H4]].
    destruct Hinf as [Hinf | Hinf].
    + destruct lat as [| [] | |]; discriminate.
    + destruct lon as [| [] | |]; discriminate.
  - intros Hlat. destruct lat as [| s | |]; try discriminate Hlat. split.
    + unfold near_coast. split; [intros [H | H]; [done | discriminate H] | by left].
    + destruct s; [by right | by left].
  - intros Hlon. destruct lon as [| s | |]; try discriminate Hlon. split.
    + unfold near_coast. split; [intros [H | H]; [discriminate H | done] | by right].
    + destruct s; [by right | by left].
  - intros Hlat Hlon.
    destruct lat as [| [] | |]; try discriminate Hlat;
      destruct lon as [| [] | |]; try discriminate Hlon; reflexivity.
Qed.

Lemma infinite_classification_witness :
  synthetic_place_label (S754_infinity false) (S754_infinity true)
  = inland_label (S754_infinity false) (S754_infinity true).
Proof.
  destruct (infinite_classification (S754_infinity false) (S754_infinity true)
              (or_introl eq_refl)) as (_ & _ & _ & Hboth).
  apply Hboth; reflexivity.
Defined.

(** ** The analysis *)

(** X14. In every response of [analyze] the label and the threads are of
    the same category, there are three threads and three prompts, the
    timestamp is the one received, and the photo names are those of the
    photos sent, [photo1] before [photo2], with no entry for a photo that
    was not sent: a single photo gives the same response in either slot. *)
Theorem analyze_response (utcnow : datetime) (lat lon : spec_float)
    (stamp : option string) (note : string) (photo1 photo2 audio : option UploadFile) :
  let response := analyze utcnow lat lon stamp note photo1 photo2 audio in
  (place_label response = riverside_label lat lon
   ∧ leading_titles (threads response) = ["River trade and tides"; "Bridge rumors"]
   ∨ place_label response = coastal_label lat lon
     ∧ leading_titles (threads response) = ["Salt wind archive"; "Ship graffiti"]
   ∨ place_label response = inland_label lat lon
     ∧ leading_titles (threads response) = ["Dry season crossings"; "Songs against dust"])
  ∧ length (threads response) = 3%nat
  ∧ length (reflection_prompts response) = 3%nat
  ∧ timestamp response = stamp
  ∧ photo_names (uploads response)
    = (filename <$> option_list photo1) ++ (filename <$> option_list photo2)
  ∧ (∀ photo, analyze utcnow lat lon stamp note (Some photo) None audio
              = analyze utcnow lat lon stamp note None (Some photo) audio).
Proof.
  cbv zeta. split_and!.
  - unfold analyze. cbn [place_label threads].
    destruct (label_cases lat lon) as [[Hr Hl] | [(Hr & Hc & Hl) | (Hr & Hc & Hl)]];
      destruct (threads_cases lat lon note)
        as [[Hr' Ht] | [(Hr' & Hc' & Ht) | (Hr' & Hc' & Ht)]];
      try contradiction; rewrite Hl, Ht; auto.
  - unfold analyze. cbn [threads]. unfold build_threads.
    destruct ((lt lit_36_0 lat && lt lat lit_41_0) && (lt lit_m10_0 lon && lt lon lit_m4_0));
      [|destruct (lt (abs lon) lit_20 || lt (abs lat) lit_15)]; reflexivity.
  - reflexivity.
  - reflexivity.
  - by destruct photo1, photo2.
  - reflexivity.
Qed.

(** ** Found or not found *)

Section Found.

Implicit Types (w : World) (q : request) (qs : list request).

Lemma serve_keys q w :
  fresh_ids [q] w →
  OrderedDict.keys (_items (serve q w)) = OrderedDict.keys (_items w) ++ drawn [q].
Proof.
  intros [Hfresh _]. destruct q as [uuid4 utcnow body | | artifact_id]; cbn [serve].
  - rewrite save_artifact_items, set_fresh by done.
    unfold OrderedDict.keys. by rewrite fmap_app.
  - rewrite list_artifacts_state. change (drawn [GetArtifacts]) with (@nil string).
    by rewrite app_nil_r.
  - rewrite get_artifact_state. change (drawn [GetArtifact artifact_id]) with (@nil string).
    by rewrite app_nil_r.
Qed.

Lemma serve_all_keys qs w :
  fresh_ids qs w →
  OrderedDict.keys (_items (serve_all qs w)) = OrderedDict.keys (_items w) ++ drawn qs.
Proof.
  revert w. induction qs as [|q qs IH]; intros w Hfresh.
  - change (serve_all [] w) with w. change (drawn []) with (@nil string).
    by rewrite app_nil_r.
  - destruct Hfresh as [Hfresh Hrest].
    assert (fresh_ids [q] w) as Hq by done.
    change (serve_all (q :: qs) w) with (serve_all qs (serve q w)).
    rewrite IH, serve_keys by done.
    unfold drawn. rewrite !bind_cons. change (@nil request ≫= _) with (@nil string).
    by rewrite app_nil_r, app_assoc.
Qed.

End Found.

(** X15. From the empty store, after any requests to the store's routes in
    which each [POST] draws a new identifier, [GET /artifact/{id}] finds an
    artifact exactly for the identifiers the [POST]s have drawn, and raises
    the 404 for every other string. *)
Theorem found_iff_posted (qs : list request) (objects : gmap ref (gmap string pyval))
    (artifact_id : string) :
  fresh_ids qs (ArtifactStore.init objects) →
  let w := serve_all qs (ArtifactStore.init objects) in
  (artifact_id ∈ drawn qs ↔ ∃ r, get_artifact artifact_id w = (inl r, w))
  ∧ (artifact_id ∉ drawn qs
     ↔ get_artifact artifact_id w = (inr (HTTPException 404 "Artifact not found"), w)).
Proof.
  intros Hfresh. cbv zeta.
  pose proof (serve_all_keys qs _ Hfresh) as Hkeys.
  change (OrderedDict.keys (_items (ArtifactStore.init objects))) with (@nil string) in Hkeys.
  rewrite app_nil_l in Hkeys. rewrite <- Hkeys.
  set (w := serve_all qs (ArtifactStore.init objects)).
  unfold get_artifact, bind, try_except. rewrite get_unfold.
  destruct (OrderedDict.get artifact_id (_items w)) as [item|] eqn:Hget.
  - assert (artifact_id ∈ OrderedDict.keys (_items w)) as Hin.
    { apply contains_true. unfold OrderedDict.contains. by rewrite Hget. }
    split; split; try done.
    intros _. by exists item.
  - pose proof Hget as Hnot%get_None.
    split; split; try done.
    intros [r Hr]. discriminate Hr.
Qed.

Lemma found_iff_posted_witness :
  let qs := [PostArtifact "u1" morning {[ "x" := VInt 1 ]}; GetArtifacts] in
  get_artifact "u2" (serve_all qs (ArtifactStore.init ∅))
  = (inr (HTTPException 404 "Artifact not found"), serve_all qs (ArtifactStore.init ∅)).
Proof.
  cbv zeta.
  assert (fresh_ids [PostArtifact "u1" morning {[ "x" := VInt 1 ]}; GetArtifacts]
            (ArtifactStore.init ∅)) as Hfresh.
  { split; [apply not_elem_of_nil|]. split; exact I. }
  apply (found_iff_posted _ ∅ "u2" Hfresh).
  intros Hin. vm_compute in Hin. apply list_elem_of_singleton in Hin. discriminate Hin.
Defined.

(** ** The threads follow the category *)

(** X16. The coordinates reach the threads through the category only: for
    a note, two places give the same list of threads exactly when they are
    of the same category. *)
Theorem threads_depend_on_category (lat lon lat' lon' : spec_float) (note : string) :
  build_threads lat lon note = build_threads lat' lon' note
  ↔ classify lat lon = classify lat' lon'.
Proof.
  unfold build_threads, classify.
  destruct ((lt lit_36_0 lat && lt lat lit_41_0) && (lt lit_m10_0 lon && lt lon lit_m4_0));
    destruct (lt (abs lon) lit_20 || lt (abs lat) lit_15);
    destruct ((lt lit_36_0 lat' && lt lat' lit_41_0)
              && (lt lit_m10_0 lon' && lt lon' lit_m4_0));
    destruct (lt (abs lon') lit_20 || lt (abs lat') lit_15);
    split; intros H; try reflexivity; discriminate H.
Qed.
